(** * odak.learn.wave.propagators: the [propagator] class

    A shallow embedding of [src/odak/learn/wave/propagators.py].

    Floating-point numbers are idealised as real numbers and complex64
    values as pairs of reals, so every statement below is about exact
    arithmetic.  Tensors carry their shape next to an index function;
    Python exceptions are values of [exn]; the instance attributes are the
    fields of the record [propagator], threaded explicitly through the
    methods. *)

From Stdlib Require Import Reals Lra Lia ZArith List String Bool Arith.
Import ListNotations.

Set Implicit Arguments.

(* ================================================================== *)
(** ** Complex numbers *)

Module Cplx.

Definition C : Type := (R * R)%type.

Definition RtoC (x : R) : C := (x, 0%R).
Definition C0 : C := RtoC 0.
Definition C1 : C := RtoC 1.

Definition Cadd (a b : C) : C := (fst a + fst b, snd a + snd b)%R.
Definition Cmul (a b : C) : C :=
  (fst a * fst b - snd a * snd b, fst a * snd b + snd a * fst b)%R.

(** [cis t] is [exp (i t)]. *)
Definition cis (t : R) : C := (cos t, sin t).

End Cplx.
Import Cplx.

(* ================================================================== *)
(** ** Exceptions and results *)

(** The Python exceptions the class can raise.  [IndexError] is what
    indexing a list or a tensor out of range raises, on the channel axis
    as on the depth axis; [UnboundLocalError] what reading a local variable
    that was never assigned raises, which is how an unknown propagator
    type shows; [RuntimeError] what torch raises when shapes do not
    broadcast; and [CollaboratorError] stands for whatever
    [get_propagation_kernel] raised. *)
Inductive exn : Type :=
| IndexError
| UnboundLocalError
| RuntimeError
| CollaboratorError.

Inductive result (A : Type) : Type :=
| Ok (a : A)
| Raise (e : exn).
Arguments Raise {A} e.

(* ================================================================== *)
(** ** Tensors and the torch primitives the class uses *)

Module Torch.

(** A two-dimensional tensor: its shape and its entries.  Entries are
    only read at indices inside the shape. *)
Record tensor (A : Type) : Type := mkTensor {
  rows : nat;
  cols : nat;
  elem : nat -> nat -> A
}.

Definition shape {A} (t : tensor A) : nat * nat := (rows t, cols t).

(** Equality of tensors: same shape, same entries inside the shape. *)
Definition tensor_eq {A} (s t : tensor A) : Prop :=
  rows s = rows t /\ cols s = cols t /\
  forall i j, i < rows s -> j < cols s -> elem s i j = elem t i j.

(** [torch.zeros(r, c)]. *)
Definition zeros (r c : nat) : tensor C := mkTensor r c (fun _ _ => C0).

(** [torch.eye(r, c)]. *)
Definition eye (r c : nat) : tensor R :=
  mkTensor r c (fun i j => if i =? j then 1%R else 0%R).

(** [a * t] for a scalar [a]. *)
Definition tscale (a : C) (t : tensor C) : tensor C :=
  mkTensor (rows t) (cols t) (fun i j => Cmul a (elem t i j)).

(** Indexing with a Python integer: [-n <= i < n] is in range and a
    negative index counts from the end; anything else raises
    [IndexError]. *)
Definition py_index (n : nat) (i : Z) : option nat :=
  if ((0 <=? i) && (i <? Z.of_nat n))%Z then Some (Z.to_nat i)
  else if ((- Z.of_nat n <=? i) && (i <? 0))%Z
       then Some (Z.to_nat (Z.of_nat n + i))
       else None.

(** Broadcasting of one dimension: equal sizes, or one of them is 1. *)
Definition broadcast_dim (a b : nat) : option nat :=
  if a =? b then Some a
  else if a =? 1 then Some b
  else if b =? 1 then Some a
  else None.

(** The index read in a dimension of size [dim] when the result is
    indexed at [i]: a dimension of size 1 is repeated. *)
Definition bidx (dim i : nat) : nat := if dim =? 1 then 0 else i.

(** [s * t], elementwise with broadcasting. *)
Definition tmul (s t : tensor C) : result (tensor C) :=
  match broadcast_dim (rows s) (rows t), broadcast_dim (cols s) (cols t) with
  | Some r, Some c =>
      Ok (mkTensor r c (fun i j =>
            Cmul (elem s (bidx (rows s) i) (bidx (cols s) j))
                 (elem t (bidx (rows t) i) (bidx (cols t) j))))
  | _, _ => Raise RuntimeError
  end.

(** [slot[...] = h]: [h] is expanded to the shape of the slot, which
    keeps its shape; a dimension of [h] that is neither the slot's nor 1
    raises. *)
Definition assign (slot h : tensor C) : result (tensor C) :=
  if ((rows h =? rows slot) || (rows h =? 1)) &&
     ((cols h =? cols slot) || (cols h =? 1))
  then Ok (mkTensor (rows slot) (cols slot)
             (fun i j => elem h (bidx (rows h) i) (bidx (cols h) j)))
  else Raise RuntimeError.

(** [t.detach().clone()]: a copy with the same entries. *)
Definition clone {A} (t : tensor A) : tensor A := t.

(** Sum of [f 0 .. f (n-1)]. *)
Fixpoint Csum (n : nat) (f : nat -> C) : C :=
  match n with
  | O => C0
  | S k => Cadd (Csum k f) (f k)
  end.

(** [torch.fft.fftshift] over both dimensions: a roll by [n / 2]. *)
Definition fftshift (t : tensor C) : tensor C :=
  mkTensor (rows t) (cols t) (fun i j =>
    elem t ((i + (rows t - rows t / 2)) mod rows t)
           ((j + (cols t - cols t / 2)) mod cols t)).

(** [torch.fft.ifftshift] over both dimensions: the roll back. *)
Definition ifftshift (t : tensor C) : tensor C :=
  mkTensor (rows t) (cols t) (fun i j =>
    elem t ((i + rows t / 2) mod rows t) ((j + cols t / 2) mod cols t)).

(** The twiddle factor [exp (sgn * 2 pi i * (k m / M + l n / N))]. *)
Definition twiddle (sgn : R) (M N k l m n : nat) : C :=
  cis (sgn * 2 * PI * (INR (k * m) / INR M + INR (l * n) / INR N))%R.

(** [torch.fft.fft2]: the two-dimensional discrete Fourier transform. *)
Definition fft2 (t : tensor C) : tensor C :=
  mkTensor (rows t) (cols t) (fun k l =>
    Csum (rows t) (fun m => Csum (cols t) (fun n =>
      Cmul (elem t m n) (twiddle (-1) (rows t) (cols t) k l m n)))).

(** [torch.fft.ifft2]: the inverse transform, normalised by [1 / (M N)]. *)
Definition ifft2 (t : tensor C) : tensor C :=
  mkTensor (rows t) (cols t) (fun m n =>
    Cmul (RtoC (/ INR (rows t * cols t)))
      (Csum (rows t) (fun k => Csum (cols t) (fun l =>
        Cmul (elem t k l) (twiddle 1 (rows t) (cols t) k l m n))))).

(** [torch.linspace(start, stop, steps)]; a single step gives [start]. *)
Definition linspace (start stop : R) (steps : nat) : list R :=
  map (fun i => (start + INR i * ((stop - start) / INR (steps - 1)))%R)
      (seq 0 steps).

End Torch.
Import Torch.

(* ================================================================== *)
(** ** The helpers of [odak.learn.tools] *)

Module Tools.

(** Modelled from the spec: [zero_pad] of [odak.learn.tools] is not among
    the sources.  The spec (4.4, step 1 and the numerical contract) makes
    it pad a field symmetrically by a fixed factor of two per axis: the
    result has twice the rows and columns of its argument, holds the
    argument in its centre and zero elsewhere. *)
Definition zero_pad (field : tensor C) : tensor C :=
  let h := rows field in
  let w := cols field in
  mkTensor (2 * h) (2 * w) (fun i j =>
    if (h / 2 <=? i) && (i <? h / 2 + h) && (w / 2 <=? j) && (j <? w / 2 + w)
    then elem field (i - h / 2) (j - w / 2)
    else C0).

(** Modelled from the spec: [crop_center] of [odak.learn.tools] is not
    among the sources.  The spec (4.4, step 5) makes it crop a padded
    buffer back to the unpadded resolution, half the rows and columns,
    taking the centred region. *)
Definition crop_center (field : tensor C) : tensor C :=
  let h := rows field / 2 in
  let w := cols field / 2 in
  mkTensor h w (fun i j =>
    elem field (i + (rows field - h) / 2) (j + (cols field - w) / 2)).

(** The coordinate of the sample [i] of an axis of [n] samples spanning
    [-n / 2 .. n / 2] with both ends included, the value
    [torch.linspace(-n / 2, n / 2, n)[i]], as an exact fraction with a
    positive denominator: [-n / 2 + i * n / (n - 1)], and [-1 / 2] for
    the single sample of an axis of one. *)
Definition axis_coordinate (n i : nat) : Z * Z :=
  if n =? 1 then ((-1)%Z, 2%Z)
  else ((Z.of_nat n * (2 * Z.of_nat i - (Z.of_nat n - 1)))%Z,
        (2 * (Z.of_nat n - 1))%Z).

(** Modelled from the spec: [circular_binary_mask] of [odak.learn.tools]
    is not among the sources.  The spec (3 and 4.1) makes
    [build(None, size)] a circular binary mask centred in the padded
    buffer, and the default diameter the larger padded dimension; the
    size [set_aperture] hands over by default is the larger dimension
    before padding, half of that, so the third argument is the radius of
    the disc.  The buffer of [px] by [py] samples spans [-px / 2 .. px / 2]
    and [-py / 2 .. py / 2] around its centre, and the sample [(i, j)] at
    [(x, y)] is set when it is closer to the centre than the radius:
    [sqrt (x^2 + y^2) < r], written here over the exact fractions of
    [axis_coordinate] with the denominators multiplied out. *)
Definition circular_binary_mask (px py : nat) (r : Z) : tensor bool :=
  mkTensor px py (fun i j =>
    let x := axis_coordinate px i in
    let y := axis_coordinate py j in
    ((0 <? r) &&
     ((fst x * snd y) ^ 2 + (fst y * snd x) ^ 2 <?
      (r * (snd x * snd y)) ^ 2))%Z).

(** [mask * 1.]: a boolean mask as numbers. *)
Definition to_float (mask : tensor bool) : tensor C :=
  mkTensor (rows mask) (cols mask) (fun i j =>
    if elem mask i j then C1 else C0).

End Tools.
Import Tools.

(* ================================================================== *)
(** ** The instance attributes *)

(** The attributes of a [propagator] instance.  [resolution] is the pair
    [(resolution[0], resolution[1])]; [kernels] is the four-dimensional
    complex tensor, a [number_of_depth_layers] by [number_of_channels]
    table of padded buffers; [generated_kernels] the table of flags.
    [device] and [kernel_components] (allocated by [init_kernels] and
    never read or written again) are left out. *)
Record propagator : Type := mkPropagator {
  pixel_pitch : R;
  wavelengths : list R;
  resolution : nat * nat;
  resolution_factor : nat;
  number_of_frames : nat;
  number_of_depth_layers : nat;
  number_of_channels : nat;
  volume_depth : R;
  image_location_offset : R;
  propagation_type : string;
  propagator_type : string;
  zero_mode_distance : R;
  aperture : tensor C;
  distances : list R;
  generated_kernels : tensor bool;
  kernels : tensor (tensor C);
  channel_power : tensor R;
  phase_scale : list R
}.

Definition with_aperture (self : propagator) (v : tensor C) : propagator :=
  mkPropagator (pixel_pitch self) (wavelengths self) (resolution self)
    (resolution_factor self) (number_of_frames self)
    (number_of_depth_layers self) (number_of_channels self)
    (volume_depth self) (image_location_offset self) (propagation_type self)
    (propagator_type self) (zero_mode_distance self)
    v (distances self) (generated_kernels self) (kernels self)
    (channel_power self) (phase_scale self).

Definition with_distances (self : propagator) (v : list R) : propagator :=
  mkPropagator (pixel_pitch self) (wavelengths self) (resolution self)
    (resolution_factor self) (number_of_frames self)
    (number_of_depth_layers self) (number_of_channels self)
    (volume_depth self) (image_location_offset self) (propagation_type self)
    (propagator_type self) (zero_mode_distance self)
    (aperture self) v (generated_kernels self) (kernels self)
    (channel_power self) (phase_scale self).

Definition with_generated_kernels (self : propagator) (v : tensor bool)
  : propagator :=
  mkPropagator (pixel_pitch self) (wavelengths self) (resolution self)
    (resolution_factor self) (number_of_frames self)
    (number_of_depth_layers self) (number_of_channels self)
    (volume_depth self) (image_location_offset self) (propagation_type self)
    (propagator_type self) (zero_mode_distance self)
    (aperture self) (distances self) v (kernels self)
    (channel_power self) (phase_scale self).

Definition with_kernels (self : propagator) (v : tensor (tensor C))
  : propagator :=
  mkPropagator (pixel_pitch self) (wavelengths self) (resolution self)
    (resolution_factor self) (number_of_frames self)
    (number_of_depth_layers self) (number_of_channels self)
    (volume_depth self) (image_location_offset self) (propagation_type self)
    (propagator_type self) (zero_mode_distance self)
    (aperture self) (distances self) (generated_kernels self) v
    (channel_power self) (phase_scale self).

Definition with_channel_power (self : propagator) (v : tensor R)
  : propagator :=
  mkPropagator (pixel_pitch self) (wavelengths self) (resolution self)
    (resolution_factor self) (number_of_frames self)
    (number_of_depth_layers self) (number_of_channels self)
    (volume_depth self) (image_location_offset self) (propagation_type self)
    (propagator_type self) (zero_mode_distance self)
    (aperture self) (distances self) (generated_kernels self) (kernels self)
    v (phase_scale self).

Definition with_phase_scale (self : propagator) (v : list R) : propagator :=
  mkPropagator (pixel_pitch self) (wavelengths self) (resolution self)
    (resolution_factor self) (number_of_frames self)
    (number_of_depth_layers self) (number_of_channels self)
    (volume_depth self) (image_location_offset self) (propagation_type self)
    (propagator_type self) (zero_mode_distance self)
    (aperture self) (distances self) (generated_kernels self) (kernels self)
    (channel_power self) v.

(** [t[i, j] = v] at indices already resolved. *)
Definition tset {A} (t : tensor A) (i j : nat) (v : A) : tensor A :=
  mkTensor (rows t) (cols t) (fun i' j' =>
    if (i' =? i) && (j' =? j) then v else elem t i' j').

(* ================================================================== *)
(** ** Construction *)

(** [init_distances]. *)
Definition init_distances (self : propagator) : propagator :=
  with_distances self
    (map (fun x => (x + image_location_offset self)%R)
       (linspace (- volume_depth self / 2) (volume_depth self / 2)
          (number_of_depth_layers self))).

(** The padded shape [(resolution[0] * resolution_factor * 2,
    resolution[1] * resolution_factor * 2)]. *)
Definition padded_rows (self : propagator) : nat :=
  fst (resolution self) * resolution_factor self * 2.
Definition padded_cols (self : propagator) : nat :=
  snd (resolution self) * resolution_factor self * 2.

(** [init_kernels]. *)
Definition init_kernels (self : propagator) : propagator :=
  let self :=
    with_generated_kernels self
      (mkTensor (number_of_depth_layers self) (number_of_channels self)
         (fun _ _ => false)) in
  with_kernels self
    (mkTensor (number_of_depth_layers self) (number_of_channels self)
       (fun _ _ => zeros (padded_rows self) (padded_cols self))).

(** [init_channel_power]. *)
Definition init_channel_power (self : propagator)
  (channel_power : option (tensor R)) : propagator :=
  match channel_power with
  | Some p => with_channel_power self p
  | None =>
      with_channel_power self
        (eye (number_of_frames self) (number_of_channels self))
  end.

(** [init_phase_scale]. *)
Definition init_phase_scale (self : propagator) : propagator :=
  with_phase_scale self [1%R; 1%R; 1%R].

(** [set_aperture]. *)
Definition set_aperture (self : propagator) (aperture : option (tensor C))
  (aperture_size : option Z) : propagator :=
  match aperture with
  | None =>
      let aperture_size :=
        match aperture_size with
        | None =>
            Z.of_nat (Nat.max (fst (resolution self) * resolution_factor self)
                              (snd (resolution self) * resolution_factor self))
        | Some size => size
        end in
      with_aperture self
        (to_float (circular_binary_mask
                     (fst (resolution self) * resolution_factor self * 2)
                     (snd (resolution self) * resolution_factor self * 2)
                     aperture_size))
  | Some a => with_aperture self (zero_pad a)
  end.

(** [__init__]: the attributes are stored, then the five initialisers
    run in the order of the source.  Attributes an initialiser has not
    written yet hold an empty value. *)
Definition __init__ (resolution : nat * nat) (wavelengths : list R)
  (pixel_pitch : R) (resolution_factor number_of_frames
   number_of_depth_layers : nat) (volume_depth image_location_offset : R)
  (propagation_type propagator_type : string) (back_and_forth_distance : R)
  (laser_channel_power : option (tensor R)) (aperture : option (tensor C))
  : propagator :=
  let self :=
    mkPropagator pixel_pitch wavelengths resolution resolution_factor
      number_of_frames number_of_depth_layers (List.length wavelengths)
      volume_depth image_location_offset propagation_type propagator_type
      back_and_forth_distance
      (match aperture with Some a => a | None => zeros 0 0 end)
      [] (mkTensor 0 0 (fun _ _ => false))
      (mkTensor 0 0 (fun _ _ => zeros 0 0))
      (mkTensor 0 0 (fun _ _ => 0%R)) [] in
  let self := init_distances self in
  let self := init_kernels self in
  let self := init_channel_power self laser_channel_power in
  let self := init_phase_scale self in
  set_aperture self aperture None.

(* ================================================================== *)
(** ** Propagation *)

(** The stages of [propagate], named as in the source. *)
Definition propagate_field_padded (field : tensor C) : tensor C :=
  zero_pad field.

Definition propagate_U1 (field : tensor C) : tensor C :=
  fftshift (fft2 (fftshift (propagate_field_padded field))).

(** [U2 = H * self.aperture * U1], evaluated from the left. *)
Definition propagate_U2 (self : propagator) (field H : tensor C)
  : result (tensor C) :=
  match tmul H (aperture self) with
  | Ok HA => tmul HA (propagate_U1 field)
  | Raise e => Raise e
  end.

Definition propagate_result_padded (U2 : tensor C) : tensor C :=
  ifftshift (ifft2 (ifftshift U2)).

(** [propagate]. *)
Definition propagate (self : propagator) (field H : tensor C)
  : result (tensor C) :=
  match propagate_U2 self field H with
  | Ok U2 => Ok (crop_center (propagate_result_padded U2))
  | Raise e => Raise e
  end.

(* ================================================================== *)
(** ** The forward call *)

(** The keyword arguments of one call of [get_propagation_kernel]
    ([device] left out). *)
Record kernel_request : Type := mkRequest {
  nu : nat;
  nv : nat;
  dx : R;
  wavelength : R;
  distance : R;
  kernel_propagation_type : string;
  scale : nat
}.

(** What a method leaves behind: the instance after it, the calls of
    [get_propagation_kernel] it made, in order, and the value it returned
    or the exception it raised. *)
Record outcome (A : Type) : Type := mkOutcome {
  out_state : propagator;
  out_trace : list kernel_request;
  out_result : result A
}.

(** Methods as state transformers that may raise and that record the
    calls of the collaborator. *)
Definition M (A : Type) : Type := propagator -> outcome A.

Definition ret {A} (a : A) : M A := fun self => mkOutcome self [] (Ok a).

Definition raise {A} (e : exn) : M A := fun self => mkOutcome self [] (Raise e).

Definition bind {A B} (m : M A) (f : A -> M B) : M B := fun self =>
  let o := m self in
  match out_result o with
  | Ok a =>
      let o' := f a (out_state o) in
      mkOutcome (out_state o') (out_trace o ++ out_trace o') (out_result o')
  | Raise e => mkOutcome (out_state o) (out_trace o) (Raise e)
  end.

Notation "x <- m ;; k" := (bind m (fun x => k))
  (at level 61, m at next level, right associativity).

Definition get_self : M propagator := fun self => mkOutcome self [] (Ok self).

Definition put_self (self' : propagator) : M unit :=
  fun _ => mkOutcome self' [] (Ok tt).

Definition lift {A} (r : result A) : M A := fun self => mkOutcome self [] r.

(** [l[i]] for a list or a one-dimensional tensor. *)
Definition index_list (l : list R) (i : Z) : result R :=
  match py_index (List.length l) i with
  | Some k => Ok (nth k l 0%R)
  | None => Raise IndexError
  end.

(** The position [t[i, j]] refers to. *)
Definition index_pair {A} (t : tensor A) (i j : Z) : result (nat * nat) :=
  match py_index (rows t) i with
  | Some r =>
      match py_index (cols t) j with
      | Some c => Ok (r, c)
      | None => Raise IndexError
      end
  | None => Raise IndexError
  end.

(** [t[i, j]]. *)
Definition index2 {A} (t : tensor A) (i j : Z) : result A :=
  match index_pair t i j with
  | Ok (r, c) => Ok (elem t r c)
  | Raise e => Raise e
  end.

Section ForwardCall.

(** The collaborator [get_propagation_kernel] of [odak.learn.wave.classical]:
    any function of its arguments; [None] when it raises. *)
Variable get_propagation_kernel : kernel_request -> option (tensor C).

Definition call_get_propagation_kernel (rq : kernel_request) : M (tensor C) :=
  fun self =>
    mkOutcome self [rq]
      (match get_propagation_kernel rq with
       | Some H => Ok H
       | None => Raise CollaboratorError
       end).

(** [self.kernels[depth_id, channel_id] = H]. *)
Definition store_kernel (depth_id channel_id : Z) (H : tensor C) : M unit :=
  self <- get_self ;;
  p <- lift (index_pair (kernels self) depth_id channel_id) ;;
  slot <- lift (assign (elem (kernels self) (fst p) (snd p)) H) ;;
  put_self (with_kernels self (tset (kernels self) (fst p) (snd p) slot)).

(** [self.generated_kernels[depth_id, channel_id] = True]. *)
Definition mark_generated (depth_id channel_id : Z) : M unit :=
  self <- get_self ;;
  p <- lift (index_pair (generated_kernels self) depth_id channel_id) ;;
  put_self (with_generated_kernels self
              (tset (generated_kernels self) (fst p) (snd p) true)).

(** The branch on [self.propagator_type]: the kernel [H] when a branch
    binds it, [None] when neither does and [H] stays unbound. *)
Definition generate_kernel (input_field : tensor C) (channel_id : Z)
  (distance : R) : M (option (tensor C)) :=
  self <- get_self ;;
  if (propagator_type self =? "forward")%string then
    w <- lift (index_list (wavelengths self) channel_id) ;;
    H <- call_get_propagation_kernel
           (mkRequest (rows input_field * 2) (cols input_field * 2)
              (pixel_pitch self) w distance (propagation_type self)
              (resolution_factor self)) ;;
    ret (Some H)
  else if (propagator_type self =? "back and forth")%string then
    w <- lift (index_list (wavelengths self) channel_id) ;;
    H_forward <- call_get_propagation_kernel
           (mkRequest (rows input_field * 2) (cols input_field * 2)
              (pixel_pitch self) w (zero_mode_distance self)
              (propagation_type self) (resolution_factor self)) ;;
    let distance_back :=
      (- (zero_mode_distance self + image_location_offset self - distance))%R in
    w' <- lift (index_list (wavelengths self) channel_id) ;;
    H_back <- call_get_propagation_kernel
           (mkRequest (rows input_field * 2) (cols input_field * 2)
              (pixel_pitch self) w' distance_back
              (propagation_type self) (resolution_factor self)) ;;
    H <- lift (tmul H_forward H_back) ;;
    ret (Some H)
  else ret None.

(** [__call__]. *)
Definition __call__ (input_field : tensor C) (channel_id depth_id : Z)
  : M (tensor C) :=
  self <- get_self ;;
  distance <- lift (index_list (distances self) depth_id) ;;
  generated <- lift (index2 (generated_kernels self) depth_id channel_id) ;;
  H <- (if negb generated then
          bound <- generate_kernel input_field channel_id distance ;;
          H <- (match bound with
                | Some H => ret H
                | None => raise UnboundLocalError
                end) ;;
          _ <- store_kernel depth_id channel_id H ;;
          _ <- mark_generated depth_id channel_id ;;
          ret H
        else
          self <- get_self ;;
          slot <- lift (index2 (kernels self) depth_id channel_id) ;;
          ret (clone slot)) ;;
  self <- get_self ;;
  lift (propagate self input_field H).

(** [get_laser_powers] and [set_laser_powers]. *)
Definition get_laser_powers (self : propagator) : tensor R :=
  channel_power self.

Definition set_laser_powers (self : propagator) (laser_power : tensor R)
  : propagator :=
  with_channel_power self laser_power.

(** The operations of an instance once it is constructed.  [get_kernels]
    and [get_laser_powers] only read attributes and [propagate] only reads
    the aperture. *)
Inductive operation : Type :=
| OpCall (input_field : tensor C) (channel_id depth_id : Z)
| OpPropagate (field H : tensor C)
| OpSetAperture (aperture : option (tensor C)) (aperture_size : option Z)
| OpGetLaserPowers
| OpSetLaserPowers (laser_power : tensor R)
| OpGetKernels.

(** The instance after an operation, whether it returned or raised. *)
Definition perform (self : propagator) (o : operation) : propagator :=
  match o with
  | OpCall input_field channel_id depth_id =>
      out_state (__call__ input_field channel_id depth_id self)
  | OpPropagate _ _ => self
  | OpSetAperture a size => set_aperture self a size
  | OpGetLaserPowers => self
  | OpSetLaserPowers p => set_laser_powers self p
  | OpGetKernels => self
  end.

Definition perform_all (self : propagator) (os : list operation) : propagator :=
  fold_left perform os self.

(** One request of a forward call. *)
Record request : Type := mkCall {
  call_field : tensor C;
  call_channel_id : Z;
  call_depth_id : Z
}.

Definition call (self : propagator) (rq : request) : outcome (tensor C) :=
  __call__ (call_field rq) (call_channel_id rq) (call_depth_id rq) self.

(** Whether a request addresses the cache slot [(d, c)]. *)
Definition addresses (self : propagator) (rq : request) (d c : nat) : bool :=
  match index_pair (generated_kernels self) (call_depth_id rq)
          (call_channel_id rq) with
  | Ok (d', c') => (d' =? d) && (c' =? c)
  | Raise _ => false
  end.

(** The number of calls of [get_propagation_kernel] made for the slot
    [(d, c)] along a sequence of forward calls. *)
Fixpoint generator_calls (d c : nat) (self : propagator) (rqs : list request)
  : nat :=
  match rqs with
  | [] => 0
  | rq :: rqs' =>
      let o := call self rq in
      (if addresses self rq d c then List.length (out_trace o) else 0)
      + generator_calls d c (out_state o) rqs'
  end.

(** The number of forward calls for the slot [(d, c)] that ended with its
    flag still false. *)
Fixpoint failed_attempts (d c : nat) (self : propagator) (rqs : list request)
  : nat :=
  match rqs with
  | [] => 0
  | rq :: rqs' =>
      let o := call self rq in
      (if addresses self rq d c &&
          negb (elem (generated_kernels (out_state o)) d c)
       then 1 else 0)
      + failed_attempts d c (out_state o) rqs'
  end.

(** The number of collaborator calls one kernel takes. *)
Definition legs (self : propagator) : nat :=
  if (propagator_type self =? "forward")%string then 1
  else if (propagator_type self =? "back and forth")%string then 2
  else 0.

End ForwardCall.

(* ================================================================== *)
(** ** Well-formed instances *)

(** What the constructor establishes about the shapes of the attributes
    and every operation keeps: the depth schedule, the flags and the cache
    have [number_of_depth_layers] entries along the depth axis, the
    wavelengths, the flags and the cache have [number_of_channels] entries
    along the channel axis, and every cache slot has the padded shape. *)
Record wf (self : propagator) : Prop := mkWf {
  wf_distances : List.length (distances self) = number_of_depth_layers self;
  wf_wavelengths : List.length (wavelengths self) = number_of_channels self;
  wf_flag_rows : rows (generated_kernels self) = number_of_depth_layers self;
  wf_flag_cols : cols (generated_kernels self) = number_of_channels self;
  wf_kernel_rows : rows (kernels self) = number_of_depth_layers self;
  wf_kernel_cols : cols (kernels self) = number_of_channels self;
  wf_slot_shape : forall d c,
    shape (elem (kernels self) d c) = (padded_rows self, padded_cols self)
}.

(** [scaled_by a x y]: [y] has the shape of [x] and [a] times its
    entries. *)
Definition scaled_by (a : C) (x y : tensor C) : Prop :=
  rows y = rows x /\ cols y = cols x /\
  forall i j, i < rows x -> j < cols x -> elem y i j = Cmul a (elem x i j).

(* ================================================================== *)
(** ** Sample instances *)

(** A collaborator that honours its interface: a transfer function of
    the requested shape [(nu, nv)], here all zero. *)
Definition blank_kernels (rq : kernel_request) : option (tensor C) :=
  Some (zeros (nu rq) (nv rq)).

(** An instance constructed with the defaults of the class for
    everything but the resolution, the resolution factor, the number of
    depth layers and the propagator type. *)
Definition sample (resolution : nat * nat) (resolution_factor : nat)
  (number_of_depth_layers : nat) (propagator_type : string) : propagator :=
  __init__ resolution [515e-9%R] 8e-6%R resolution_factor 1
    number_of_depth_layers 1e-2%R 5e-3%R "Bandlimited Angular Spectrum"
    propagator_type 0.3%R None None.

(** Instances of resolution (2, 2) with one depth layer, one for each
    propagator type and one for a type the forward call does not know. *)
Definition forward_instance : propagator := sample (2, 2) 1 1 "forward".
Definition back_and_forth_instance : propagator :=
  sample (2, 2) 1 1 "back and forth".
Definition sideways_instance : propagator := sample (2, 2) 1 1 "sideways".

(** Requests for the slot (0, 0): one with a field of the configured
    shape, one with a field of another shape, (1, 1). *)
Definition shaped_call : request := mkCall (zeros 2 2) 0 0.
Definition misshaped_call : request := mkCall (zeros 1 1) 0 0.

(** The forward instance after a first call has filled its slot (0, 0). *)
Definition filled_instance : propagator :=
  out_state (call blank_kernels forward_instance shaped_call).

(** An instance with three depth layers. *)
Definition three_layers : propagator := sample (2, 2) 1 3 "forward".

(** An instance of resolution (4, 4). *)
Definition wide_instance : propagator := sample (4, 4) 1 1 "forward".

(** An instance whose resolution factor is two, a field of its configured
    resolution, and the cache slot the field would be multiplied with. *)
Definition scaled_instance : propagator := sample (2, 2) 2 1 "forward".
Definition unscaled_field : tensor C := zeros 2 2.
Definition scaled_slot : tensor C := elem (kernels scaled_instance) 0 0.

(* ================================================================== *)
(** ** Sums of tensors and sequences of operations *)

(** [s + t], elementwise with broadcasting. *)
Definition tadd (s t : tensor C) : result (tensor C) :=
  match broadcast_dim (rows s) (rows t), broadcast_dim (cols s) (cols t) with
  | Some r, Some c =>
      Ok (mkTensor r c (fun i j =>
            Cadd (elem s (bidx (rows s) i) (bidx (cols s) j))
                 (elem t (bidx (rows t) i) (bidx (cols t) j))))
  | _, _ => Raise RuntimeError
  end.

(** [sum_of x1 x2 y]: the three tensors have one shape and [y] holds the
    sums of the entries of [x1] and [x2]. *)
Definition sum_of (x1 x2 y : tensor C) : Prop :=
  rows x2 = rows x1 /\ cols x2 = cols x1 /\
  rows y = rows x1 /\ cols y = cols x1 /\
  forall i j, i < rows x1 -> j < cols x1 ->
    elem y i j = Cadd (elem x1 i j) (elem x2 i j).

(** Whether an operation is anything but [set_laser_powers]. *)
Definition keeps_laser_powers (o : operation) : bool :=
  match o with
  | OpSetLaserPowers _ => false
  | _ => true
  end.

(* ================================================================== *)
(** ** odak.learn.raytracing.detector: the [detector] class *)

Module Detector.

(** A point or a vector of space. *)
Definition point : Type := (R * R * R)%type.

(** A three-dimensional real tensor, the image of a detector: [channels]
    images of [height] by [width] pixels. *)
Record tensor3 : Type := mkTensor3 {
  channels : nat;
  height : nat;
  width : nat;
  pixel : nat -> nat -> nat -> R
}.

(** [torch.zeros(c, h, w)]. *)
Definition zeros3 (c h w : nat) : tensor3 :=
  mkTensor3 c h w (fun _ _ _ => 0%R).

(** The distance between a point and a pixel location,
    [sqrt(sum((p - q) ** 2))]. *)
Definition distance_to (p q : point) : R :=
  sqrt ((fst (fst p) - fst (fst q)) ^ 2 + (snd (fst p) - snd (fst q)) ^ 2
        + (snd p - snd q) ^ 2).

(** The weight a ray leaves on a pixel at the distance [d],
    [abs(1 - 1 / (1 + exp(-50 d + 5)))], over the real numbers.  In
    floating point the quotient rounds to one for a small distance and to
    zero for a large one, so the weight is then exactly zero or one; what
    is proved of the weight below is what holds either way, that it lies
    between zero and one, both included. *)
Definition hit (d : R) : R := Rabs (1 - 1 / (1 + exp (- 50 * d + 5))).

Fixpoint Rsum (l : list R) : R :=
  match l with
  | [] => 0%R
  | x :: l' => (x + Rsum l')%R
  end.

(** [torch.sum(hit, dim = 0)]: for every pixel location the sum of the
    weights of all points. *)
Definition hits (points locations : list point) : list R :=
  map (fun q => Rsum (map (fun p => hit (distance_to p q)) points)) locations.

Section Class.

(** The planes and the bundles of rays of [odak.learn.raytracing]: types
    the class only hands on. *)
Variables Plane Rays : Type.

(** The helpers [define_plane] and [grid_sample] of the constructor and
    [intersect_w_surface] of [intersect] are not among the sources: any
    functions of their arguments.  [intersect_w_surface] gives the
    normals, one pair of a point and a direction for each ray. *)
Variable define_plane : point -> point -> Plane.
Variable grid_sample : R * R -> nat * nat -> point -> point -> list point.
Variable intersect_w_surface : Rays -> Plane -> list (point * point).

(** The attributes of a [detector] instance ([device] and the two torch
    modules [threshold] and [sigmoid], which no method uses, left out). *)
Record detector : Type := mkDetector {
  colors : nat;
  resolution : nat * nat;
  surface_center : point;
  surface_tilt : point;
  size : R * R;
  pixel_size : R * R;
  pixel_diagonal_size : R;
  pixel_diagonal_half_size : R;
  plane : Plane;
  pixel_locations : list point;
  image : tensor3
}.

Definition with_image (self : detector) (v : tensor3) : detector :=
  mkDetector (colors self) (resolution self) (surface_center self)
    (surface_tilt self) (size self) (pixel_size self)
    (pixel_diagonal_size self) (pixel_diagonal_half_size self) (plane self)
    (pixel_locations self) v.

(** [clear]. *)
Definition clear (self : detector) : detector :=
  with_image self
    (zeros3 (colors self) (fst (resolution self)) (snd (resolution self))).

(** [__init__]. *)
Definition __init__ (colors : nat) (center tilt : point) (size : R * R)
  (resolution : nat * nat) : detector :=
  let pixel_size :=
    ((fst size / INR (fst resolution))%R, (snd size / INR (snd resolution))%R) in
  let pixel_diagonal_size :=
    sqrt (fst pixel_size ^ 2 + snd pixel_size ^ 2) in
  clear
    (mkDetector colors resolution center tilt size pixel_size
       pixel_diagonal_size (pixel_diagonal_size / 2)%R
       (define_plane center tilt)
       (grid_sample size resolution center tilt)
       (zeros3 0 0 0)).

(** [self.image[color] += image.reshape(height, width)] at a channel
    already resolved: the flat image is read row by row. *)
Definition add_to_channel (img : tensor3) (c : nat) (flat : list R) : tensor3 :=
  mkTensor3 (channels img) (height img) (width img) (fun k i j =>
    if k =? c then (pixel img k i j + nth (i * width img + j) flat 0)%R
    else pixel img k i j).

(** [intersect]: the detector after the call and what the call returns,
    the whole image and the points, or raises.  The channel is looked up
    before the new image is reshaped. *)
Definition intersect (self : detector) (rays : Rays) (color : Z)
  : detector * result (tensor3 * list point) :=
  let normals := intersect_w_surface rays (plane self) in
  let points := map fst normals in
  let flat := hits points (pixel_locations self) in
  match py_index (channels (image self)) color with
  | None => (self, Raise IndexError)
  | Some c =>
      if List.length flat =? height (image self) * width (image self) then
        let img := add_to_channel (image self) c flat in
        (with_image self img, Ok (img, points))
      else (self, Raise RuntimeError)
  end.


End Class.

End Detector.

(** A detector of one row and two pixels with three colours, whose
    helpers are the simplest possible: rays are the points they reach. *)
Definition two_pixels : Detector.detector unit :=
  Detector.__init__ (fun _ _ => tt)
    (fun _ _ _ _ => [(0, 0, 0)%R; (1, 0, 0)%R])
    3 (0, 0, 0)%R (0, 0, 0)%R (10, 10)%R (1, 2).

Definition reached (rays : list Detector.point) (_ : unit)
  : list (Detector.point * Detector.point) :=
  map (fun p => (p, (0, 0, 1)%R)) rays.

(* ================================================================== *)
(** * Properties *)

Unset Implicit Arguments.

(** ** Complex arithmetic *)

Lemma C_eq (a b : C) : fst a = fst b -> snd a = snd b -> a = b.
Proof. destruct a, b; simpl; intros; subst; reflexivity. Qed.

Ltac csolve :=
  intros;
  repeat match goal with x : C |- _ => destruct x end;
  unfold Cmul, Cadd, C0, C1, RtoC; simpl;
  apply C_eq; simpl; ring.

Lemma Cmul_0_r (a : C) : Cmul a C0 = C0.
Proof. csolve. Qed.

Lemma Cmul_0_l (a : C) : Cmul C0 a = C0.
Proof. csolve. Qed.

Lemma Cmul_1_l (a : C) : Cmul C1 a = a.
Proof. csolve. Qed.

Lemma Cmul_add_distr_l (a b c : C) :
  Cmul a (Cadd b c) = Cadd (Cmul a b) (Cmul a c).
Proof. csolve. Qed.

Lemma Cmul_assoc (a b c : C) : Cmul a (Cmul b c) = Cmul (Cmul a b) c.
Proof. csolve. Qed.

(** A scalar moves out of a product from either side. *)
Lemma Cmul_swap (a b c : C) : Cmul b (Cmul a c) = Cmul a (Cmul b c).
Proof. csolve. Qed.

Lemma Cmul_scal_l (a b c : C) : Cmul (Cmul a b) c = Cmul a (Cmul b c).
Proof. csolve. Qed.

Lemma C1_neq_C0 : C1 <> C0.
Proof.
  unfold C1, C0, RtoC. intros H.
  apply (f_equal fst) in H. simpl in H. lra.
Qed.

(** ** Sums *)

Lemma Csum_scaled (a : C) (n : nat) (f g : nat -> C) :
  (forall k, k < n -> g k = Cmul a (f k)) ->
  Csum n g = Cmul a (Csum n f).
Proof.
  induction n as [|n IH]; intros Hfg; simpl.
  - now rewrite Cmul_0_r.
  - rewrite Cmul_add_distr_l, IH, Hfg by auto with arith. reflexivity.
Qed.

(** ** Broadcasting *)

Lemma broadcast_dim_even (x h r : nat) :
  broadcast_dim x (2 * h) = Some r -> r = 2 * h.
Proof.
  unfold broadcast_dim.
  destruct (Nat.eqb_spec x (2 * h)); [intros [= <-]; assumption|].
  destruct (Nat.eqb_spec x 1); [intros [= <-]; reflexivity|].
  destruct (Nat.eqb_spec (2 * h) 1); [lia | discriminate].
Qed.

Lemma broadcast_dim_refl (n : nat) : broadcast_dim n n = Some n.
Proof. unfold broadcast_dim. now rewrite Nat.eqb_refl. Qed.

(** The index read in the right operand of a broadcast stays in range. *)
Lemma bidx_right_in_range (a b r i : nat) :
  broadcast_dim a b = Some r -> i < r -> bidx b i < b.
Proof.
  unfold broadcast_dim, bidx.
  destruct (Nat.eqb_spec a b), (Nat.eqb_spec a 1), (Nat.eqb_spec b 1);
    intros [= <-]; lia.
Qed.

(** ** Every stage of [propagate] commutes with scaling *)

Lemma zero_pad_scaled (a : C) (x y : tensor C) :
  scaled_by a x y -> scaled_by a (zero_pad x) (zero_pad y).
Proof.
  intros (Hr & Hc & He). unfold scaled_by, zero_pad; simpl.
  rewrite Hr, Hc. repeat split; trivial.
  intros i j Hi Hj.
  destruct (_ && _) eqn:E.
  - apply He.
    + apply andb_true_iff in E as [E _]. apply andb_true_iff in E as [E _].
      apply andb_true_iff in E as [E1 E2].
      apply Nat.leb_le in E1. apply Nat.ltb_lt in E2. lia.
    + apply andb_true_iff in E as [E E2]. apply andb_true_iff in E as [_ E1].
      apply Nat.leb_le in E1. apply Nat.ltb_lt in E2. lia.
  - now rewrite Cmul_0_r.
Qed.

Lemma fftshift_scaled (a : C) (x y : tensor C) :
  scaled_by a x y -> scaled_by a (fftshift x) (fftshift y).
Proof.
  intros (Hr & Hc & He). unfold scaled_by, fftshift; simpl.
  rewrite Hr, Hc. repeat split; trivial.
  intros i j Hi Hj. apply He; apply Nat.mod_upper_bound; lia.
Qed.

Lemma ifftshift_scaled (a : C) (x y : tensor C) :
  scaled_by a x y -> scaled_by a (ifftshift x) (ifftshift y).
Proof.
  intros (Hr & Hc & He). unfold scaled_by, ifftshift; simpl.
  rewrite Hr, Hc. repeat split; trivial.
  intros i j Hi Hj. apply He; apply Nat.mod_upper_bound; lia.
Qed.

Lemma fft2_scaled (a : C) (x y : tensor C) :
  scaled_by a x y -> scaled_by a (fft2 x) (fft2 y).
Proof.
  intros (Hr & Hc & He). unfold scaled_by, fft2; simpl.
  rewrite Hr, Hc. repeat split; trivial.
  intros k l _ _.
  apply Csum_scaled; intros m Hm.
  apply Csum_scaled; intros n Hn.
  rewrite He by assumption. apply Cmul_scal_l.
Qed.

Lemma ifft2_scaled (a : C) (x y : tensor C) :
  scaled_by a x y -> scaled_by a (ifft2 x) (ifft2 y).
Proof.
  intros (Hr & Hc & He). unfold scaled_by, ifft2; simpl.
  rewrite Hr, Hc. repeat split; trivial.
  intros m n _ _.
  rewrite Cmul_swap. f_equal.
  apply Csum_scaled; intros k Hk.
  apply Csum_scaled; intros l Hl.
  rewrite He by assumption. apply Cmul_scal_l.
Qed.

Lemma crop_center_index (n i : nat) :
  i < n / 2 -> i + (n - n / 2) / 2 < n.
Proof.
  intros Hi.
  pose proof (Nat.div_mod_eq n 2) as Hn.
  assert ((n - n / 2) / 2 <= n / 2) by (apply Nat.Div0.div_le_mono; lia).
  lia.
Qed.

Lemma crop_center_scaled (a : C) (x y : tensor C) :
  scaled_by a x y -> scaled_by a (crop_center x) (crop_center y).
Proof.
  intros (Hr & Hc & He). unfold scaled_by, crop_center.
  cbn [rows cols elem]. rewrite Hr, Hc. repeat split; trivial.
  intros i j Hi Hj. apply He; now apply crop_center_index.
Qed.

(** Multiplying by a fixed tensor from the left: the product exists for
    the scaled operand exactly when it exists for the original one. *)
Lemma tmul_scaled (a : C) (K x y : tensor C) :
  scaled_by a x y ->
  match tmul K x with
  | Ok u => exists v, tmul K y = Ok v /\ scaled_by a u v
  | Raise e => tmul K y = Raise e
  end.
Proof.
  intros (Hr & Hc & He). unfold tmul. rewrite Hr, Hc.
  destruct (broadcast_dim (rows K) (rows x)) as [r|] eqn:Er; trivial.
  destruct (broadcast_dim (cols K) (cols x)) as [c|] eqn:Ec; trivial.
  eexists; split; [reflexivity|].
  unfold scaled_by; simpl. repeat split; trivial.
  intros i j Hi Hj.
  rewrite He.
  - apply Cmul_swap.
  - eapply bidx_right_in_range; eassumption.
  - eapply bidx_right_in_range; eassumption.
Qed.

(** ** Shapes along [propagate] *)

Lemma shape_eq {A} (t : tensor A) (r c : nat) :
  shape t = (r, c) <-> rows t = r /\ cols t = c.
Proof.
  unfold shape. split.
  - intros E. split; [exact (f_equal fst E) | exact (f_equal snd E)].
  - intros [-> ->]. reflexivity.
Qed.

Lemma propagate_U1_shape (field : tensor C) :
  shape (propagate_U1 field) = (2 * rows field, 2 * cols field).
Proof. reflexivity. Qed.

Lemma tmul_even_shape (K x : tensor C) (h w : nat) (u : tensor C) :
  shape x = (2 * h, 2 * w) -> tmul K x = Ok u -> shape u = (2 * h, 2 * w).
Proof.
  intros Hs. apply shape_eq in Hs as [Hr Hc].
  unfold tmul. rewrite Hr, Hc.
  destruct (broadcast_dim (rows K) (2 * h)) as [r|] eqn:Er; [|discriminate].
  destruct (broadcast_dim (cols K) (2 * w)) as [c|] eqn:Ec; [|discriminate].
  intros [= <-]. apply shape_eq. cbn [rows cols].
  apply broadcast_dim_even in Er, Ec. now subst.
Qed.

Lemma tmul_same_shape (s t : tensor C) :
  shape s = shape t ->
  exists u, tmul s t = Ok u /\ shape u = shape t.
Proof.
  intros Hs. apply shape_eq in Hs as [Hr Hc].
  unfold tmul. rewrite Hr, Hc, !broadcast_dim_refl.
  eexists; split; reflexivity.
Qed.

Lemma propagate_U2_shape (self : propagator) (field H U2 : tensor C) :
  propagate_U2 self field H = Ok U2 ->
  shape U2 = (2 * rows field, 2 * cols field).
Proof.
  unfold propagate_U2.
  destruct (tmul H (aperture self)) as [HA|]; [|discriminate].
  apply tmul_even_shape, propagate_U1_shape.
Qed.

Lemma crop_center_shape (t : tensor C) (h w : nat) :
  shape t = (2 * h, 2 * w) -> shape (crop_center t) = (h, w).
Proof.
  intros Hs. apply shape_eq in Hs as [Hr Hc].
  apply shape_eq. unfold crop_center. cbn [rows cols]. rewrite Hr, Hc.
  split; rewrite Nat.mul_comm; apply Nat.div_mul; discriminate.
Qed.

Lemma propagate_ok_shape (self : propagator) (field H r : tensor C) :
  propagate self field H = Ok r -> shape r = shape field.
Proof.
  unfold propagate.
  destruct (propagate_U2 self field H) as [U2|] eqn:E; [|discriminate].
  intros [= <-]. apply propagate_U2_shape in E.
  now apply crop_center_shape.
Qed.

Lemma propagate_returns (self : propagator) (field H : tensor C) :
  shape H = (2 * rows field, 2 * cols field) ->
  shape (aperture self) = (2 * rows field, 2 * cols field) ->
  exists r, propagate self field H = Ok r /\ shape r = shape field.
Proof.
  intros HH HA.
  destruct (tmul_same_shape H (aperture self)) as (u & Eu & Su);
    [congruence|].
  destruct (tmul_same_shape u (propagate_U1 field)) as (v & Ev & Sv).
  { rewrite Su, HA. symmetry. apply propagate_U1_shape. }
  assert (E : propagate self field H =
              Ok (crop_center (propagate_result_padded v))).
  { unfold propagate, propagate_U2. now rewrite Eu, Ev. }
  eexists; split; [exact E | now apply (propagate_ok_shape self field H)].
Qed.

(** C3, as amended.  For a field of shape (H, W) the padded buffer, its
    transform, the product with kernel and aperture and the inverse
    transform all have shape (2H, 2W): the padding factor is two per axis
    and the resolution factor plays no part in it.  Whenever [propagate]
    returns, the result has the shape (H, W) of the field; it returns when
    kernel and aperture have the padded shape (2H, 2W), which for the
    cached kernels and the default aperture, both of shape
    (2 resolution[0] scale, 2 resolution[1] scale), means a field of shape
    (resolution[0] scale, resolution[1] scale). *)
Theorem propagate_shape (self : propagator) (field H : tensor C) :
  shape (propagate_field_padded field) = (2 * rows field, 2 * cols field) /\
  shape (propagate_U1 field) = (2 * rows field, 2 * cols field) /\
  (forall U2, propagate_U2 self field H = Ok U2 ->
     shape U2 = (2 * rows field, 2 * cols field) /\
     shape (propagate_result_padded U2) = (2 * rows field, 2 * cols field)) /\
  (forall r, propagate self field H = Ok r -> shape r = shape field) /\
  (shape H = (2 * rows field, 2 * cols field) ->
   shape (aperture self) = (2 * rows field, 2 * cols field) ->
   exists r, propagate self field H = Ok r /\ shape r = shape field) /\
  (shape field = (fst (resolution self) * resolution_factor self,
                  snd (resolution self) * resolution_factor self) ->
   shape H = (padded_rows self, padded_cols self) ->
   shape (aperture self) = (padded_rows self, padded_cols self) ->
   shape (propagate_field_padded field) = (padded_rows self, padded_cols self) /\
   exists r, propagate self field H = Ok r /\ shape r = shape field).
Proof.
  assert (Hret : forall r, propagate self field H = Ok r -> shape r = shape field).
  { intros r. apply propagate_ok_shape. }
  assert (Hok : shape H = (2 * rows field, 2 * cols field) ->
                shape (aperture self) = (2 * rows field, 2 * cols field) ->
                exists r, propagate self field H = Ok r /\ shape r = shape field).
  { apply propagate_returns. }
  split; [reflexivity|]. split; [reflexivity|].
  split.
  { intros U2 E. apply propagate_U2_shape in E. split; exact E. }
  split; [exact Hret|]. split; [exact Hok|].
  intros Hf HH HA. apply shape_eq in Hf as [Hfr Hfc].
  assert (Hp : (padded_rows self, padded_cols self) =
               (2 * rows field, 2 * cols field)).
  { unfold padded_rows, padded_cols. rewrite Hfr, Hfc. f_equal; lia. }
  split.
  - rewrite Hp. reflexivity.
  - apply Hok; congruence.
Qed.

(** C3, as stated, fails when the resolution factor is not one: with
    resolution (2, 2) and factor 2 a field of shape (2, 2) is padded to
    (4, 4), not to (8, 8), and its product with a cache slot raises. *)
Lemma propagate_shape_counterexample :
  shape unscaled_field = (2, 2) /\
  resolution_factor scaled_instance = 2 /\
  shape (propagate_field_padded unscaled_field) = (4, 4) /\
  shape (propagate_field_padded unscaled_field) <>
    (2 * rows unscaled_field * resolution_factor scaled_instance,
     2 * cols unscaled_field * resolution_factor scaled_instance) /\
  shape scaled_slot = (8, 8) /\
  propagate scaled_instance unscaled_field scaled_slot = Raise RuntimeError.
Proof.
  repeat split; try reflexivity. discriminate.
Qed.

(** A field of the scaled resolution goes through. *)
Lemma propagate_shape_witness :
  shape (propagate_field_padded (zeros 4 4)) = (8, 8) /\
  exists r, propagate scaled_instance (zeros 4 4) scaled_slot = Ok r /\
            shape r = shape (zeros 4 4).
Proof.
  apply (propagate_shape scaled_instance (zeros 4 4) scaled_slot);
    reflexivity.
Defined.

(** ** Linearity of [propagate] *)

Lemma propagate_U1_scaled (a : C) (x y : tensor C) :
  scaled_by a x y -> scaled_by a (propagate_U1 x) (propagate_U1 y).
Proof.
  intros Hxy. unfold propagate_U1, propagate_field_padded.
  now apply fftshift_scaled, fft2_scaled, fftshift_scaled, zero_pad_scaled.
Qed.

Lemma propagate_result_padded_scaled (a : C) (x y : tensor C) :
  scaled_by a x y ->
  scaled_by a (propagate_result_padded x) (propagate_result_padded y).
Proof.
  intros Hxy. unfold propagate_result_padded.
  now apply ifftshift_scaled, ifft2_scaled, ifftshift_scaled.
Qed.

Lemma propagate_scaled (self : propagator) (a : C) (H x y : tensor C) :
  scaled_by a x y ->
  match propagate self x H with
  | Ok r => exists r', propagate self y H = Ok r' /\ scaled_by a r r'
  | Raise e => propagate self y H = Raise e
  end.
Proof.
  intros Hxy. unfold propagate, propagate_U2.
  destruct (tmul H (aperture self)) as [HA|e]; [|reflexivity].
  pose proof (tmul_scaled a HA _ _ (propagate_U1_scaled a x y Hxy)) as Hm.
  destruct (tmul HA (propagate_U1 x)) as [U2|e].
  - destruct Hm as (U2' & -> & HU).
    eexists; split; [reflexivity|].
    now apply crop_center_scaled, propagate_result_padded_scaled.
  - now rewrite Hm.
Qed.

Lemma tscale_scaled (a : C) (x : tensor C) : scaled_by a x (tscale a x).
Proof. unfold scaled_by, tscale; simpl. auto. Qed.

(** C4.  For a fixed kernel and aperture [propagate] commutes with the
    multiplication of the field by a complex scalar: where it returns
    [r] for a field it returns [a r] for [a] times the field, and where it
    raises it raises the same for both.  In particular a field that is
    zero everywhere gives a result that is zero everywhere. *)
Theorem propagate_linear (self : propagator) (field H : tensor C) (a : C) :
  (forall r, propagate self field H = Ok r ->
     exists r', propagate self (tscale a field) H = Ok r' /\
                tensor_eq r' (tscale a r)) /\
  (forall e, propagate self field H = Raise e ->
     propagate self (tscale a field) H = Raise e) /\
  (forall r,
     (forall i j, i < rows field -> j < cols field -> elem field i j = C0) ->
     propagate self field H = Ok r ->
     tensor_eq r (zeros (rows field) (cols field))).
Proof.
  pose proof (propagate_scaled self a H _ _ (tscale_scaled a field)) as Hs.
  split; [|split].
  - intros r E. rewrite E in Hs.
    destruct Hs as (r' & E' & Hr & Hc & He).
    exists r'. split; [exact E'|].
    unfold tensor_eq, tscale; cbn [rows cols elem].
    repeat split; trivial.
    intros i j Hi Hj. apply He; congruence.
  - intros e E. now rewrite E in Hs.
  - intros r Hzero E.
    assert (Hz : scaled_by C0 field field).
    { unfold scaled_by. repeat split; trivial.
      intros i j Hi Hj. now rewrite Cmul_0_l, Hzero. }
    pose proof (propagate_scaled self C0 H _ _ Hz) as Hp.
    rewrite E in Hp. destruct Hp as (r' & [= <-] & _ & _ & He).
    pose proof (proj1 (shape_eq r _ _) (propagate_ok_shape _ _ _ _ E))
      as [Hr Hc].
    unfold tensor_eq, zeros; cbn [rows cols elem].
    repeat split; trivial.
    intros i j Hi Hj. now rewrite He, Cmul_0_l.
Qed.

(** An all-zero field of the scaled resolution, propagated with a cache
    slot of the instance: the result exists, is all zero, and doubling the
    field doubles it. *)
Lemma propagate_linear_witness :
  exists r r',
    propagate scaled_instance (zeros 4 4) scaled_slot = Ok r /\
    propagate scaled_instance (tscale (RtoC 2) (zeros 4 4)) scaled_slot = Ok r' /\
    tensor_eq r' (tscale (RtoC 2) r) /\
    tensor_eq r (zeros 4 4).
Proof.
  destruct (propagate_returns scaled_instance (zeros 4 4) scaled_slot
              eq_refl eq_refl) as (r & E & _).
  destruct (propagate_linear scaled_instance (zeros 4 4) scaled_slot (RtoC 2))
    as (Hlin & _ & Hzero).
  destruct (Hlin r E) as (r' & E' & Heq).
  exists r, r'. repeat split; try assumption; try apply Heq.
  all: apply (Hzero r); [intros i j _ _; reflexivity | exact E].
Defined.

(** ** Sequencing *)

Lemma outcome_eta {A} (o : outcome A) :
  mkOutcome (out_state o) (out_trace o) (out_result o) = o.
Proof. now destruct o. Qed.

Lemma bind_get_self {B} (f : propagator -> M B) (self : propagator) :
  bind get_self f self = f self self.
Proof. unfold bind, get_self; cbn. apply outcome_eta. Qed.

Lemma bind_put_self {B} (f : unit -> M B) (self self' : propagator) :
  bind (put_self self') f self = f tt self'.
Proof. unfold bind, put_self; cbn. apply outcome_eta. Qed.

Lemma bind_ret {A B} (a : A) (f : A -> M B) (self : propagator) :
  bind (ret a) f self = f a self.
Proof. unfold bind, ret; cbn. apply outcome_eta. Qed.

Lemma bind_raise {A B} (e : exn) (f : A -> M B) (self : propagator) :
  bind (raise e) f self = mkOutcome self [] (Raise e).
Proof. reflexivity. Qed.

Lemma bind_lift_ok {A B} (a : A) (f : A -> M B) (self : propagator) :
  bind (lift (Ok a)) f self = f a self.
Proof. unfold bind, lift; cbn. apply outcome_eta. Qed.

Lemma bind_lift_raise {A B} (e : exn) (f : A -> M B) (self : propagator) :
  bind (lift (Raise e)) f self = mkOutcome self [] (Raise e).
Proof. reflexivity. Qed.

(** A computation that leaves the instance alone, followed by another. *)
Lemma bind_pure {A B} (m : M A) (f : A -> M B) (self : propagator) :
  out_state (m self) = self ->
  bind m f self =
  match out_result (m self) with
  | Ok a =>
      mkOutcome (out_state (f a self))
        (out_trace (m self) ++ out_trace (f a self)) (out_result (f a self))
  | Raise e => mkOutcome self (out_trace (m self)) (Raise e)
  end.
Proof. intros E. unfold bind. cbv zeta. now rewrite E. Qed.

Lemma bind_step {A B} (m : M A) (f : A -> M B) self s a :
  m self = mkOutcome s [] (Ok a) -> bind m f self = f a s.
Proof. intros E. unfold bind. rewrite E. cbn. apply outcome_eta. Qed.

Lemma bind_fail {A B} (m : M A) (f : A -> M B) self s t e :
  m self = mkOutcome s t (Raise e) -> bind m f self = mkOutcome s t (Raise e).
Proof. intros E. unfold bind. now rewrite E. Qed.

Lemma bind_assoc {A B D} (m : M A) (f : A -> M B) (k : B -> M D) self :
  bind (bind m f) k self = bind m (fun a => bind (f a) k) self.
Proof.
  unfold bind. cbv zeta.
  destruct (m self) as [s t [a|e]]; cbn [out_state out_trace out_result];
    [|reflexivity].
  destruct (f a s) as [s' t' [b|e]]; cbn [out_state out_trace out_result];
    [|reflexivity].
  now rewrite app_assoc.
Qed.

Lemma store_kernel_unfold dp ch H self :
  store_kernel dp ch H self =
  match index_pair (kernels self) dp ch with
  | Raise e => mkOutcome self [] (Raise e)
  | Ok q =>
      match assign (elem (kernels self) (fst q) (snd q)) H with
      | Raise e => mkOutcome self [] (Raise e)
      | Ok slot =>
          mkOutcome
            (with_kernels self (tset (kernels self) (fst q) (snd q) slot))
            [] (Ok tt)
      end
  end.
Proof.
  unfold store_kernel. rewrite bind_get_self.
  destruct (index_pair (kernels self) dp ch) as [q|e];
    [rewrite bind_lift_ok | now rewrite bind_lift_raise].
  destruct (assign _ H) as [slot|e];
    [rewrite bind_lift_ok | now rewrite bind_lift_raise].
  reflexivity.
Qed.

Lemma mark_generated_unfold dp ch self :
  mark_generated dp ch self =
  match index_pair (generated_kernels self) dp ch with
  | Raise e => mkOutcome self [] (Raise e)
  | Ok p =>
      mkOutcome
        (with_generated_kernels self
           (tset (generated_kernels self) (fst p) (snd p) true))
        [] (Ok tt)
  end.
Proof.
  unfold mark_generated. rewrite bind_get_self.
  destruct (index_pair (generated_kernels self) dp ch) as [p|e];
    [rewrite bind_lift_ok | now rewrite bind_lift_raise].
  reflexivity.
Qed.

Lemma bind_call_get_propagation_kernel {B} g rq (f : tensor C -> M B) self :
  bind (call_get_propagation_kernel g rq) f self =
  match g rq with
  | Some H =>
      mkOutcome (out_state (f H self)) (rq :: out_trace (f H self))
        (out_result (f H self))
  | None => mkOutcome self [rq] (Raise CollaboratorError)
  end.
Proof.
  unfold bind, call_get_propagation_kernel; cbn.
  now destruct (g rq).
Qed.

Lemma generate_kernel_state g field ch dist self :
  out_state (generate_kernel g field ch dist self) = self.
Proof.
  unfold generate_kernel. rewrite bind_get_self.
  destruct (propagator_type self =? "forward")%string.
  - destruct (index_list (wavelengths self) ch) as [w|e];
      [rewrite bind_lift_ok | now rewrite bind_lift_raise].
    rewrite bind_call_get_propagation_kernel.
    now destruct (g _).
  - destruct (propagator_type self =? "back and forth")%string; [|reflexivity].
    destruct (index_list (wavelengths self) ch) as [w|e];
      [rewrite bind_lift_ok | now rewrite bind_lift_raise].
    rewrite bind_call_get_propagation_kernel.
    destruct (g _) as [Hf|]; [|reflexivity]. cbn [out_state].
    rewrite bind_lift_ok, bind_call_get_propagation_kernel.
    destruct (g _) as [Hb|]; [|reflexivity]. cbn [out_state].
    now destruct (tmul Hf Hb).
Qed.

Lemma generate_kernel_trace g field ch dist self :
  List.length (out_trace (generate_kernel g field ch dist self)) <= legs self.
Proof.
  unfold generate_kernel, legs. rewrite bind_get_self.
  destruct (propagator_type self =? "forward")%string.
  - destruct (index_list (wavelengths self) ch) as [w|e];
      [rewrite bind_lift_ok | rewrite bind_lift_raise; cbn; lia].
    rewrite bind_call_get_propagation_kernel.
    now destruct (g _).
  - destruct (propagator_type self =? "back and forth")%string;
      [|cbn; lia].
    destruct (index_list (wavelengths self) ch) as [w|e];
      [rewrite bind_lift_ok | rewrite bind_lift_raise; cbn; lia].
    rewrite bind_call_get_propagation_kernel.
    destruct (g _) as [Hf|]; [|cbn; lia]. cbn [out_trace].
    rewrite bind_lift_ok, bind_call_get_propagation_kernel.
    destruct (g _) as [Hb|]; [|cbn; lia]. cbn [out_trace].
    destruct (tmul Hf Hb); cbn; lia.
Qed.

Lemma call_miss_tail field ch dp H self d c :
  index_pair (generated_kernels self) dp ch = Ok (d, c) ->
  (H0 <- (H0 <- ret H ;;
          _ <- store_kernel dp ch H0 ;; _ <- mark_generated dp ch ;; ret H0) ;;
   self0 <- get_self ;; lift (propagate self0 field H0)) self =
  match index_pair (kernels self) dp ch with
  | Raise e => mkOutcome self [] (Raise e)
  | Ok q =>
      match assign (elem (kernels self) (fst q) (snd q)) H with
      | Raise e => mkOutcome self [] (Raise e)
      | Ok slot =>
          let self' :=
            with_generated_kernels
              (with_kernels self (tset (kernels self) (fst q) (snd q) slot))
              (tset (generated_kernels self) d c true) in
          mkOutcome self' [] (propagate self' field H)
      end
  end.
Proof.
  intros Ep.
  rewrite bind_assoc, bind_ret, bind_assoc.
  pose proof (store_kernel_unfold dp ch H self) as Es.
  destruct (index_pair (kernels self) dp ch) as [q|e];
    [|now erewrite bind_fail by exact Es].
  destruct (assign _ H) as [slot|e]; [|now erewrite bind_fail by exact Es].
  erewrite bind_step by exact Es. rewrite bind_assoc.
  set (self1 := with_kernels self _).
  pose proof (mark_generated_unfold dp ch self1) as Em.
  change (generated_kernels self1) with (generated_kernels self) in Em.
  rewrite Ep in Em. cbn [fst snd] in Em.
  erewrite bind_step by exact Em. rewrite bind_ret, bind_get_self. reflexivity.
Qed.

Lemma call_unfold g field ch dp self :
  __call__ g field ch dp self =
  match index_list (distances self) dp with
  | Raise e => mkOutcome self [] (Raise e)
  | Ok dist =>
    match index_pair (generated_kernels self) dp ch with
    | Raise e => mkOutcome self [] (Raise e)
    | Ok p =>
      if elem (generated_kernels self) (fst p) (snd p) then
        match index_pair (kernels self) dp ch with
        | Raise e => mkOutcome self [] (Raise e)
        | Ok q =>
            mkOutcome self []
              (propagate self field (elem (kernels self) (fst q) (snd q)))
        end
      else
        let og := generate_kernel g field ch dist self in
        match out_result og with
        | Raise e => mkOutcome self (out_trace og) (Raise e)
        | Ok None => mkOutcome self (out_trace og) (Raise UnboundLocalError)
        | Ok (Some H) =>
          match index_pair (kernels self) dp ch with
          | Raise e => mkOutcome self (out_trace og) (Raise e)
          | Ok q =>
            match assign (elem (kernels self) (fst q) (snd q)) H with
            | Raise e => mkOutcome self (out_trace og) (Raise e)
            | Ok slot =>
                let self' :=
                  with_generated_kernels
                    (with_kernels self
                       (tset (kernels self) (fst q) (snd q) slot))
                    (tset (generated_kernels self) (fst p) (snd p) true) in
                mkOutcome self' (out_trace og) (propagate self' field H)
            end
          end
        end
    end
  end.
Proof.
  unfold __call__. rewrite bind_get_self.
  destruct (index_list (distances self) dp) as [dist|e];
    [rewrite bind_lift_ok | now rewrite bind_lift_raise].
  unfold index2 at 1.
  destruct (index_pair (generated_kernels self) dp ch) as [[d c]|e] eqn:Ep;
    [rewrite bind_lift_ok | now rewrite bind_lift_raise].
  cbn [fst snd].
  destruct (elem (generated_kernels self) d c); cbn [negb].
  - rewrite bind_pure by (now rewrite bind_get_self; unfold index2;
      destruct (index_pair (kernels self) dp ch) as [[? ?]|?]).
    rewrite bind_get_self. unfold index2.
    destruct (index_pair (kernels self) dp ch) as [[d' c']|e]; [|reflexivity].
    rewrite bind_lift_ok. cbn [ret out_result out_trace fst snd app].
    rewrite bind_get_self. reflexivity.
  - cbv zeta.
    rewrite !bind_assoc.
    rewrite bind_pure by apply generate_kernel_state.
    destruct (out_result (generate_kernel g field ch dist self))
      as [[H|]|e]; [| |reflexivity]; cbv beta iota.
    + rewrite (call_miss_tail field ch dp H self d c Ep).
      destruct (index_pair (kernels self) dp ch) as [q|e];
        [|now rewrite app_nil_r].
      destruct (assign _ H) as [slot|e]; [|now rewrite app_nil_r].
      cbn [out_state out_trace out_result]. now rewrite app_nil_r.
    + rewrite bind_assoc, bind_raise. cbn [out_state out_trace out_result].
      now rewrite app_nil_r.
Qed.

(** ** What a forward call leaves behind *)

Ltac call_cases :=
  rewrite call_unfold; cbv zeta;
  repeat match goal with
         | |- context [match ?x with _ => _ end] => destruct x eqn:?
         end;
  cbn [out_state out_trace out_result].

(** A forward call writes the cache and its flags and nothing else. *)
Lemma call_writes g field ch dp self :
  exists K G,
    out_state (__call__ g field ch dp self) =
    with_generated_kernels (with_kernels self K) G.
Proof.
  call_cases;
    try (exists (kernels self), (generated_kernels self); now destruct self);
    eexists; eexists; reflexivity.
Qed.

Lemma perform_writes g self o :
  exists A K G P,
    perform g self o =
    with_channel_power
      (with_generated_kernels (with_kernels (with_aperture self A) K) G) P.
Proof.
  destruct o as [field ch dp| | a size | | p |]; cbn [perform].
  - destruct (call_writes g field ch dp self) as (K & G & ->).
    exists (aperture self), K, G, (channel_power self). reflexivity.
  - exists (aperture self), (kernels self), (generated_kernels self),
      (channel_power self). now destruct self.
  - exists (aperture (set_aperture self a size)), (kernels self),
      (generated_kernels self), (channel_power self).
    destruct self, a; reflexivity.
  - exists (aperture self), (kernels self), (generated_kernels self),
      (channel_power self). now destruct self.
  - exists (aperture self), (kernels self), (generated_kernels self), p.
    now destruct self.
  - exists (aperture self), (kernels self), (generated_kernels self),
      (channel_power self). now destruct self.
Qed.

Lemma perform_all_distances g os self :
  distances (perform_all g self os) = distances self.
Proof.
  revert self. induction os as [|o os IH]; intros self; [reflexivity|].
  cbn [perform_all fold_left]. fold (perform_all g (perform g self o) os).
  rewrite IH. destruct (perform_writes g self o) as (A & K & G & P & ->).
  reflexivity.
Qed.

(** ** The depth schedule *)

Lemma linspace_length (a b : R) (n : nat) : List.length (linspace a b n) = n.
Proof. unfold linspace. now rewrite length_map, length_seq. Qed.

Lemma linspace_nth (a b : R) (n i : nat) :
  i < n ->
  nth i (linspace a b n) 0%R = (a + INR i * ((b - a) / INR (n - 1)))%R.
Proof.
  intros Hi. unfold linspace.
  set (f := fun k => (a + INR k * ((b - a) / INR (n - 1)))%R).
  rewrite (nth_indep _ 0%R (f 0)) by now rewrite length_map, length_seq.
  rewrite (map_nth f). now rewrite seq_nth.
Qed.

Lemma shifted_nth (off : R) (l : list R) (i : nat) :
  i < List.length l ->
  nth i (map (fun x => (x + off)%R) l) 0%R = (nth i l 0 + off)%R.
Proof.
  intros Hi.
  set (f := fun x => (x + off)%R).
  rewrite (nth_indep _ 0%R (f 0%R)) by now rewrite length_map.
  apply (map_nth f).
Qed.

Section DepthSchedule.

Variables (resolution : nat * nat) (wavelengths : list R) (pixel_pitch : R)
  (resolution_factor number_of_frames number_of_depth_layers : nat)
  (volume_depth image_location_offset : R)
  (propagation_type propagator_type : string) (back_and_forth_distance : R)
  (laser_channel_power : option (tensor R)) (aperture : option (tensor C)).

Notation "'constructed'" :=
  (__init__ resolution wavelengths pixel_pitch resolution_factor
     number_of_frames number_of_depth_layers volume_depth
     image_location_offset propagation_type propagator_type
     back_and_forth_distance laser_channel_power aperture)
  (only parsing).

Lemma init_distances_value :
  distances constructed =
  map (fun x => (x + image_location_offset)%R)
    (linspace (- volume_depth / 2) (volume_depth / 2) number_of_depth_layers).
Proof. unfold __init__. destruct aperture, laser_channel_power; reflexivity. Qed.

Lemma init_distances_nth (i : nat) :
  i < number_of_depth_layers ->
  nth i (distances constructed) 0%R =
  (- volume_depth / 2
   + INR i * (volume_depth / INR (number_of_depth_layers - 1))
   + image_location_offset)%R.
Proof.
  intros Hi. rewrite init_distances_value.
  rewrite shifted_nth by now rewrite linspace_length.
  rewrite linspace_nth by assumption.
  replace (volume_depth / 2 - - volume_depth / 2)%R with volume_depth by lra.
  reflexivity.
Qed.

(** C5.  The constructor leaves [number_of_depth_layers] distances, the
    i-th being [-volume_depth/2 + i * volume_depth / (n - 1)] shifted by
    [image_location_offset]: with two layers or more they run from
    [-volume_depth/2] to [volume_depth/2], shifted, in equal steps.  For a
    non-negative [volume_depth] they are non-decreasing, and no operation
    of the instance changes them. *)
Theorem depth_schedule :
  List.length (distances constructed) = number_of_depth_layers /\
  (forall i, i < number_of_depth_layers ->
     nth i (distances constructed) 0%R =
     (- volume_depth / 2
      + INR i * (volume_depth / INR (number_of_depth_layers - 1))
      + image_location_offset)%R) /\
  (2 <= number_of_depth_layers ->
     nth 0 (distances constructed) 0%R =
       (- volume_depth / 2 + image_location_offset)%R /\
     nth (number_of_depth_layers - 1) (distances constructed) 0%R =
       (volume_depth / 2 + image_location_offset)%R) /\
  ((0 <= volume_depth)%R ->
     forall i j, i <= j -> j < number_of_depth_layers ->
       (nth i (distances constructed) 0 <= nth j (distances constructed) 0)%R) /\
  (forall g os,
     distances (perform_all g constructed os) = distances constructed).
Proof.
  split; [|split; [|split; [|split]]].
  - now rewrite init_distances_value, length_map, linspace_length.
  - exact init_distances_nth.
  - intros Hn. rewrite !init_distances_nth by lia. split.
    + simpl INR. lra.
    + assert (INR (number_of_depth_layers - 1) <> 0)%R
        by (apply not_0_INR; lia).
      field. assumption.
  - intros Hv i j Hij Hj. rewrite !init_distances_nth by lia.
    destruct (Nat.eq_dec i j) as [->|Hne]; [lra|].
    assert (0 < INR (number_of_depth_layers - 1))%R
      by (apply lt_0_INR; lia).
    assert (0 <= volume_depth / INR (number_of_depth_layers - 1))%R.
    { apply Rmult_le_pos; [assumption|].
      left. now apply Rinv_0_lt_compat. }
    assert (INR i <= INR j)%R by now apply le_INR.
    nra.
  - intros g os. apply perform_all_distances.
Qed.

End DepthSchedule.

(** Three layers over the default volume: the schedule is ordered. *)
Lemma depth_schedule_witness :
  (nth 0 (distances three_layers) 0 <= nth 2 (distances three_layers) 0)%R.
Proof.
  apply (depth_schedule (2, 2) [515e-9%R] 8e-6%R 1 1 3 1e-2%R 5e-3%R
           "Bandlimited Angular Spectrum" "forward" 0.3%R None None);
    [lra | lia | lia].
Defined.

(** ** Well-formedness is established and kept *)

Lemma wf_init resolution wavelengths pixel_pitch resolution_factor
  number_of_frames number_of_depth_layers volume_depth image_location_offset
  propagation_type propagator_type back_and_forth_distance
  laser_channel_power aperture :
  wf (__init__ resolution wavelengths pixel_pitch resolution_factor
        number_of_frames number_of_depth_layers volume_depth
        image_location_offset propagation_type propagator_type
        back_and_forth_distance laser_channel_power aperture).
Proof.
  split; try (destruct aperture, laser_channel_power; reflexivity).
  rewrite init_distances_value, length_map, linspace_length.
  destruct aperture, laser_channel_power; reflexivity.
Qed.

Lemma assign_shape (slot h slot' : tensor C) :
  assign slot h = Ok slot' -> shape slot' = shape slot.
Proof.
  unfold assign. destruct (_ && _); [|discriminate].
  now intros [= <-].
Qed.

Lemma wf_with_aperture self A : wf self -> wf (with_aperture self A).
Proof. intros []. now split. Qed.

Lemma wf_with_channel_power self P : wf self -> wf (with_channel_power self P).
Proof. intros []. now split. Qed.

Lemma wf_set_aperture self a size : wf self -> wf (set_aperture self a size).
Proof. destruct a; apply wf_with_aperture. Qed.

Lemma wf_store self d c d' c' slot :
  wf self ->
  shape slot = shape (elem (kernels self) d' c') ->
  wf (with_generated_kernels
        (with_kernels self (tset (kernels self) d' c' slot))
        (tset (generated_kernels self) d c true)).
Proof.
  intros [] Hs. split; trivial.
  intros i j. cbn.
  destruct ((i =? d') && (j =? c')); [|apply wf_slot_shape0].
  rewrite Hs. apply wf_slot_shape0.
Qed.

Lemma wf_call g field ch dp self :
  wf self -> wf (out_state (__call__ g field ch dp self)).
Proof.
  intros Hwf. call_cases; trivial.
  apply wf_store; trivial. eapply assign_shape; eassumption.
Qed.

Lemma wf_perform g self o : wf self -> wf (perform g self o).
Proof.
  intros Hwf. destruct o; cbn [perform]; trivial.
  - now apply wf_call.
  - now apply wf_set_aperture.
  - now apply wf_with_channel_power.
Qed.

Lemma wf_perform_all g os self : wf self -> wf (perform_all g self os).
Proof.
  revert self. induction os as [|o os IH]; intros self Hwf; [assumption|].
  apply IH. now apply wf_perform.
Qed.

(** In a well-formed instance the cache and its flags are indexed
    alike. *)
Lemma index_pair_kernels self dp ch :
  wf self ->
  index_pair (kernels self) dp ch = index_pair (generated_kernels self) dp ch.
Proof.
  intros []. unfold index_pair.
  now rewrite wf_kernel_rows0, wf_kernel_cols0, wf_flag_rows0, wf_flag_cols0.
Qed.

(** ** The cache is only ever filled *)

Lemma tset_other {A} (t : tensor A) i j v i' j' :
  (i', j') <> (i, j) -> elem (tset t i j v) i' j' = elem t i' j'.
Proof.
  intros Hne. cbn.
  destruct (Nat.eqb_spec i' i), (Nat.eqb_spec j' j); cbn; trivial.
  subst. now contradiction Hne.
Qed.

Lemma tset_flag_true (t : tensor bool) i j i' j' :
  elem t i' j' = true -> elem (tset t i j true) i' j' = true.
Proof. intros Ht. cbn. now destruct ((i' =? i) && (j' =? j)). Qed.

(** A forward call never clears a flag. *)
Lemma call_flag_kept g field ch dp self d c :
  elem (generated_kernels self) d c = true ->
  elem (generated_kernels (out_state (__call__ g field ch dp self))) d c = true.
Proof.
  intros Hf. call_cases; trivial.
  cbn [generated_kernels with_generated_kernels]. now apply tset_flag_true.
Qed.

(** A forward call never writes a slot whose flag is set. *)
Lemma call_slot_kept g field ch dp self d c :
  wf self ->
  elem (generated_kernels self) d c = true ->
  elem (kernels (out_state (__call__ g field ch dp self))) d c =
  elem (kernels self) d c.
Proof.
  intros Hwf Hf. rewrite call_unfold, (index_pair_kernels self dp ch Hwf).
  cbv zeta.
  repeat match goal with
         | |- context [match ?x with _ => _ end] => destruct x eqn:?
         end;
    cbn [out_state out_trace out_result]; trivial.
  cbn [kernels with_generated_kernels with_kernels].
  apply tset_other. intros [= -> ->]. congruence.
Qed.

Lemma perform_slot_kept g self o d c :
  wf self ->
  elem (generated_kernels self) d c = true ->
  elem (generated_kernels (perform g self o)) d c = true /\
  elem (kernels (perform g self o)) d c = elem (kernels self) d c.
Proof.
  intros Hwf Hf. destruct o as [field ch dp| | a size | | p |];
    cbn [perform]; auto.
  - split; [now apply call_flag_kept | now apply call_slot_kept].
  - destruct a; auto.
Qed.

(** C9.  [set_aperture] replaces the stored aperture and nothing else:
    the cache, its flags, the depth schedule and the channel powers are
    the ones from before.  And through any sequence of operations of a
    well-formed instance a cache slot whose flag is set keeps its flag and
    its value. *)
Theorem set_aperture_frame (self : propagator) (a : option (tensor C))
  (size : option Z) :
  set_aperture self a size =
    with_aperture self (aperture (set_aperture self a size)) /\
  kernels (set_aperture self a size) = kernels self /\
  generated_kernels (set_aperture self a size) = generated_kernels self /\
  distances (set_aperture self a size) = distances self /\
  channel_power (set_aperture self a size) = channel_power self /\
  (forall g os d c,
     wf self ->
     elem (generated_kernels self) d c = true ->
     elem (generated_kernels (perform_all g self os)) d c = true /\
     elem (kernels (perform_all g self os)) d c = elem (kernels self) d c).
Proof.
  repeat (split; [destruct a; reflexivity|]).
  intros g os d c. revert self.
  induction os as [|o os IH]; intros self Hwf Hf; [now split|].
  cbn [perform_all fold_left]. fold (perform_all g (perform g self o) os).
  destruct (perform_slot_kept g self o d c Hwf Hf) as [Hf' Hk].
  rewrite <- Hk. apply IH; [now apply wf_perform | assumption].
Qed.

(** The slot filled by a first call survives a new aperture and a second
    call. *)
Lemma set_aperture_frame_witness :
  elem (generated_kernels
          (perform_all blank_kernels filled_instance
             [OpSetAperture None None; OpCall (zeros 2 2) 0 0])) 0 0 = true /\
  elem (kernels
          (perform_all blank_kernels filled_instance
             [OpSetAperture None None; OpCall (zeros 2 2) 0 0])) 0 0 =
  elem (kernels filled_instance) 0 0.
Proof.
  apply (set_aperture_frame filled_instance None None).
  - apply wf_call, wf_init.
  - reflexivity.
Defined.

(** ** The collaborator is called to fill a slot, and only then *)

Lemma call_trace_bound g field ch dp self :
  List.length (out_trace (__call__ g field ch dp self)) <= legs self.
Proof.
  call_cases; try apply Nat.le_0_l; apply generate_kernel_trace.
Qed.

Lemma call_hit_trace g field ch dp self d c :
  index_pair (generated_kernels self) dp ch = Ok (d, c) ->
  elem (generated_kernels self) d c = true ->
  out_trace (__call__ g field ch dp self) = [].
Proof.
  intros Ep Hf. rewrite call_unfold, Ep. cbn [fst snd]. rewrite Hf.
  destruct (index_list (distances self) dp); [|reflexivity].
  now destruct (index_pair (kernels self) dp ch).
Qed.

(** A call that returns has left the flag of its slot set. *)
Lemma call_ok_flag g field ch dp self d c r :
  index_pair (generated_kernels self) dp ch = Ok (d, c) ->
  out_result (__call__ g field ch dp self) = Ok r ->
  elem (generated_kernels (out_state (__call__ g field ch dp self))) d c = true.
Proof.
  intros Ep. rewrite call_unfold, Ep. cbn [fst snd]. cbv zeta.
  destruct (index_list (distances self) dp) as [dist|]; [|discriminate].
  destruct (elem (generated_kernels self) d c) eqn:Hf.
  - now destruct (index_pair (kernels self) dp ch).
  - destruct (out_result (generate_kernel g field ch dist self)) as [[H|]|e];
      try discriminate.
    destruct (index_pair (kernels self) dp ch); [|discriminate].
    destruct (assign _ H); [|discriminate].
    intros _. cbn. now rewrite !Nat.eqb_refl.
Qed.

Lemma call_legs g field ch dp self :
  legs (out_state (__call__ g field ch dp self)) = legs self.
Proof. now destruct (call_writes g field ch dp self) as (K & G & ->). Qed.

Lemma addresses_index self rq d c :
  addresses self rq d c = true ->
  index_pair (generated_kernels self) (call_depth_id rq) (call_channel_id rq)
  = Ok (d, c).
Proof.
  unfold addresses.
  destruct (index_pair _ _ _) as [[d' c']|]; [|discriminate].
  intros H. apply andb_true_iff in H as [Hd Hc].
  apply Nat.eqb_eq in Hd, Hc. now subst.
Qed.

(** One call against the budget of its slot. *)
Lemma call_step_bound g self rq d c :
  (if addresses self rq d c
   then List.length (out_trace (call g self rq)) else 0)
  + legs self *
    (if elem (generated_kernels (out_state (call g self rq))) d c
     then 0 else 1)
  <= legs self *
     ((if addresses self rq d c &&
          negb (elem (generated_kernels (out_state (call g self rq))) d c)
       then 1 else 0)
      + (if elem (generated_kernels self) d c then 0 else 1)).
Proof.
  unfold call.
  pose proof (call_trace_bound g (call_field rq) (call_channel_id rq)
                (call_depth_id rq) self) as Hlen.
  pose proof (call_flag_kept g (call_field rq) (call_channel_id rq)
                (call_depth_id rq) self d c) as Hkept.
  destruct (addresses self rq d c) eqn:Ha.
  - apply addresses_index in Ha.
    pose proof (call_hit_trace g (call_field rq) _ _ self d c Ha) as Hhit.
    destruct (elem (generated_kernels self) d c).
    + rewrite Hhit, Hkept by reflexivity. cbn [andb negb List.length]; lia.
    + destruct (elem (generated_kernels (out_state _)) d c); cbn [andb negb List.length]; lia.
  - destruct (elem (generated_kernels self) d c).
    + rewrite Hkept by reflexivity. cbn [andb negb List.length]; lia.
    + destruct (elem (generated_kernels (out_state _)) d c); cbn [andb negb List.length]; lia.
Qed.

(** A flag that a call has set: the collaborator returned a kernel, the
    store of that kernel succeeded, and the cache is the one the store
    left. *)
Lemma call_flag_set_stored g field ch dp self d c :
  index_pair (generated_kernels self) dp ch = Ok (d, c) ->
  elem (generated_kernels self) d c = false ->
  elem (generated_kernels (out_state (__call__ g field ch dp self))) d c = true ->
  exists dist H,
    index_list (distances self) dp = Ok dist /\
    out_result (generate_kernel g field ch dist self) = Ok (Some H) /\
    out_result (store_kernel dp ch H self) = Ok tt /\
    kernels (out_state (__call__ g field ch dp self)) =
      kernels (out_state (store_kernel dp ch H self)) /\
    (wf self ->
     exists slot,
       assign (elem (kernels self) d c) H = Ok slot /\
       elem (kernels (out_state (__call__ g field ch dp self))) d c = slot).
Proof.
  intros Ep Hf. rewrite call_unfold, Ep. cbn [fst snd]. rewrite Hf. cbv zeta.
  destruct (index_list (distances self) dp) as [dist|e];
    [|cbn [out_state]; congruence].
  destruct (out_result (generate_kernel g field ch dist self))
    as [[H|]|e] eqn:Eg; try (cbn [out_state]; congruence).
  destruct (index_pair (kernels self) dp ch) as [q|e] eqn:Eq;
    [|cbn [out_state]; congruence].
  destruct (assign (elem (kernels self) (fst q) (snd q)) H) as [slot|e] eqn:Ea;
    [|cbn [out_state]; congruence].
  intros _. exists dist, H.
  rewrite store_kernel_unfold, Eq, Ea.
  cbn [out_state out_result kernels with_kernels with_generated_kernels].
  repeat split; trivial.
  intros Hwf. rewrite (index_pair_kernels self dp ch Hwf), Ep in Eq.
  injection Eq as <-. cbn [fst snd] in Ea. exists slot. split; [exact Ea|].
  cbn [tset elem fst snd]. now rewrite !Nat.eqb_refl.
Qed.

(** A call in which the generation or the store raises: nothing is
    written, and the exception is the one of the step that raised. *)
Lemma call_generation_failed g field ch dp self d c dist :
  index_pair (generated_kernels self) dp ch = Ok (d, c) ->
  elem (generated_kernels self) d c = false ->
  index_list (distances self) dp = Ok dist ->
  (exists e, out_result (generate_kernel g field ch dist self) = Raise e) \/
  out_result (generate_kernel g field ch dist self) = Ok None \/
  (exists H e,
     out_result (generate_kernel g field ch dist self) = Ok (Some H) /\
     out_result (store_kernel dp ch H self) = Raise e) ->
  out_state (__call__ g field ch dp self) = self /\
  exists e, out_result (__call__ g field ch dp self) = Raise e.
Proof.
  intros Ep Hf Ed Hfail. rewrite call_unfold, Ep, Ed. cbn [fst snd].
  rewrite Hf. cbv zeta.
  destruct Hfail as [[e Eg] | [Eg | (H & e & Eg & Es)]]; rewrite Eg.
  - split; [reflexivity | now exists e].
  - split; [reflexivity | now exists UnboundLocalError].
  - rewrite store_kernel_unfold in Es.
    destruct (index_pair (kernels self) dp ch) as [q|e'];
      [|split; [reflexivity | now exists e']].
    destruct (assign (elem (kernels self) (fst q) (snd q)) H) as [slot|e''];
      [discriminate Es | split; [reflexivity | now exists e'']].
Qed.

(** C1, as amended.  One forward call invokes the collaborator at most
    once for [forward] and at most twice for [back and forth], and not at
    all when the flag of its slot is set.  A flag that is set stays set,
    and a call that returns has set the flag of its slot.  The flag is
    set after the kernel has been stored: when a call has turned the flag
    of its slot from false to true, the collaborator has returned a
    kernel, the store [self.kernels[depth_id, channel_id] = H] of that
    kernel has succeeded, the cache is the one that store left, and on a
    well-formed instance the slot holds the kernel as the assignment
    expands it.  A call for a slot whose flag is false in which the
    generation raises, binds no kernel, or the store raises, raises and
    leaves the instance as it was, the flag still false.  So along any
    sequence of forward calls the collaborator is invoked for a slot at
    most once (twice) for the first fill plus once (twice) for every call
    that raised before the flag was set. *)
Theorem generator_calls_bounded (g : kernel_request -> option (tensor C))
  (self : propagator) :
  (forall rq, List.length (out_trace (call g self rq)) <= legs self) /\
  (forall rq d c,
     addresses self rq d c = true ->
     elem (generated_kernels self) d c = true ->
     out_trace (call g self rq) = []) /\
  (forall rq d c,
     elem (generated_kernels self) d c = true ->
     elem (generated_kernels (out_state (call g self rq))) d c = true) /\
  (forall rq d c r,
     addresses self rq d c = true ->
     out_result (call g self rq) = Ok r ->
     elem (generated_kernels (out_state (call g self rq))) d c = true) /\
  (forall rqs d c,
     generator_calls g d c self rqs <=
     legs self * (failed_attempts g d c self rqs
                  + (if elem (generated_kernels self) d c then 0 else 1))) /\
  (forall rq d c,
     addresses self rq d c = true ->
     elem (generated_kernels self) d c = false ->
     elem (generated_kernels (out_state (call g self rq))) d c = true ->
     exists dist H,
       index_list (distances self) (call_depth_id rq) = Ok dist /\
       out_result (generate_kernel g (call_field rq) (call_channel_id rq)
                     dist self) = Ok (Some H) /\
       out_result (store_kernel (call_depth_id rq) (call_channel_id rq) H self)
         = Ok tt /\
       kernels (out_state (call g self rq)) =
         kernels (out_state (store_kernel (call_depth_id rq)
                               (call_channel_id rq) H self)) /\
       (wf self ->
        exists slot,
          assign (elem (kernels self) d c) H = Ok slot /\
          elem (kernels (out_state (call g self rq))) d c = slot)) /\
  (forall rq d c dist,
     addresses self rq d c = true ->
     elem (generated_kernels self) d c = false ->
     index_list (distances self) (call_depth_id rq) = Ok dist ->
     (exists e,
        out_result (generate_kernel g (call_field rq) (call_channel_id rq)
                      dist self) = Raise e) \/
     out_result (generate_kernel g (call_field rq) (call_channel_id rq)
                   dist self) = Ok None \/
     (exists H e,
        out_result (generate_kernel g (call_field rq) (call_channel_id rq)
                      dist self) = Ok (Some H) /\
        out_result (store_kernel (call_depth_id rq) (call_channel_id rq) H self)
          = Raise e) ->
     out_state (call g self rq) = self /\
     elem (generated_kernels (out_state (call g self rq))) d c = false /\
     exists e, out_result (call g self rq) = Raise e).
Proof.
  split; [|split; [|split; [|split; [|split; [|split]]]]].
  - intros rq. apply call_trace_bound.
  - intros rq d c Ha Hf. apply addresses_index in Ha.
    now apply (call_hit_trace g _ _ _ self d c).
  - intros rq d c. apply call_flag_kept.
  - intros rq d c r Ha. apply addresses_index in Ha.
    now apply call_ok_flag.
  - intros rqs d c. revert self.
    induction rqs as [|rq rqs IH]; intros self; cbn [generator_calls
      failed_attempts]; [lia|].
    pose proof (call_step_bound g self rq d c) as Hstep.
    specialize (IH (out_state (call g self rq))).
    assert (Hlegs : legs (out_state (call g self rq)) = legs self)
      by apply call_legs.
    rewrite Hlegs in IH. nia.
  - intros rq d c Ha Hf Hset. apply addresses_index in Ha.
    exact (call_flag_set_stored g _ _ _ self d c Ha Hf Hset).
  - intros rq d c dist Ha Hf Ed Hfail. apply addresses_index in Ha.
    destruct (call_generation_failed g _ _ _ self d c dist Ha Hf Ed Hfail)
      as [Es He].
    unfold call. rewrite Es. now repeat split.
Qed.

(** C1, as stated, fails: a field of shape (1, 1) makes the collaborator
    return a kernel that does not fit the slot, the store raises before
    the flag is set, and the next call for the same pair invokes the
    collaborator again.  A collaborator that raises is likewise invoked
    by every call. *)
Lemma generator_calls_counterexample :
  propagator_type forward_instance = "forward"%string /\
  out_result (call blank_kernels forward_instance misshaped_call) =
    Raise RuntimeError /\
  generator_calls blank_kernels 0 0 forward_instance
    [misshaped_call; misshaped_call] = 2 /\
  ~ generator_calls blank_kernels 0 0 forward_instance
      [misshaped_call; misshaped_call] <= 1 /\
  generator_calls (fun _ => None) 0 0 forward_instance
    [shaped_call; shaped_call] = 2.
Proof.
  repeat split; try reflexivity.
  change (~ 2 <= 1). lia.
Qed.

(** Two calls with a field of the configured shape: the collaborator is
    invoked once, and the first call has stored the kernel it was given,
    a kernel of the padded shape (4, 4), before it set the flag.  A call
    with a field of shape (1, 1), whose kernel of shape (2, 2) the store
    refuses, leaves the instance as it was. *)
Lemma generator_calls_witness :
  out_trace (call blank_kernels filled_instance shaped_call) = [] /\
  generator_calls blank_kernels 0 0 forward_instance
    [shaped_call; shaped_call] <=
  legs forward_instance *
  (failed_attempts blank_kernels 0 0 forward_instance
     [shaped_call; shaped_call] + 1) /\
  (exists dist H,
     index_list (distances forward_instance) 0 = Ok dist /\
     out_result (generate_kernel blank_kernels (zeros 2 2) 0 dist
                   forward_instance) = Ok (Some H) /\
     out_result (store_kernel 0 0 H forward_instance) = Ok tt /\
     kernels filled_instance =
       kernels (out_state (store_kernel 0 0 H forward_instance)) /\
     (wf forward_instance ->
      exists slot,
        assign (elem (kernels forward_instance) 0 0) H = Ok slot /\
        elem (kernels filled_instance) 0 0 = slot)) /\
  (out_state (call blank_kernels forward_instance misshaped_call) =
     forward_instance /\
   elem (generated_kernels
           (out_state (call blank_kernels forward_instance misshaped_call)))
     0 0 = false /\
   exists e,
     out_result (call blank_kernels forward_instance misshaped_call) = Raise e).
Proof.
  split; [|split; [|split]].
  - apply (generator_calls_bounded blank_kernels filled_instance)
      with (d := 0) (c := 0); reflexivity.
  - apply (generator_calls_bounded blank_kernels forward_instance).
  - apply (generator_calls_bounded blank_kernels forward_instance
             : _ /\ _ /\ _ /\ _ /\ _ /\ _ /\ _) with (rq := shaped_call);
      reflexivity.
  - apply (generator_calls_bounded blank_kernels forward_instance)
      with (rq := misshaped_call) (d := 0) (c := 0)
           (dist := nth 0 (distances forward_instance) 0%R);
      try reflexivity.
    right. right. exists (zeros 2 2), RuntimeError. split; reflexivity.
Defined.

(** ** The kernel of the two-leg strategy *)

Lemma bidx_in_range (n i : nat) : i < n -> bidx n i = i.
Proof. unfold bidx. destruct (Nat.eqb_spec n 1); lia. Qed.

Lemma index_list_resolved (l : list R) (n : nat) (i : Z) (k : nat) :
  List.length l = n -> py_index n i = Some k ->
  index_list l i = Ok (nth k l 0%R).
Proof. intros <- E. unfold index_list. now rewrite E. Qed.

Lemma index_pair_resolved {A} (t : tensor A) (n m : nat) (i j : Z) (r c : nat) :
  rows t = n -> cols t = m ->
  py_index n i = Some r -> py_index m j = Some c ->
  index_pair t i j = Ok (r, c).
Proof. intros <- <- Er Ec. unfold index_pair. now rewrite Er, Ec. Qed.

Lemma generate_kernel_back_and_forth g field ch dist self w Hf Hb :
  propagator_type self = "back and forth"%string ->
  index_list (wavelengths self) ch = Ok w ->
  g (mkRequest (rows field * 2) (cols field * 2) (pixel_pitch self) w
       (zero_mode_distance self) (propagation_type self)
       (resolution_factor self)) = Some Hf ->
  g (mkRequest (rows field * 2) (cols field * 2) (pixel_pitch self) w
       (- (zero_mode_distance self + image_location_offset self - dist))
       (propagation_type self) (resolution_factor self)) = Some Hb ->
  generate_kernel g field ch dist self =
  mkOutcome self
    [mkRequest (rows field * 2) (cols field * 2) (pixel_pitch self) w
       (zero_mode_distance self) (propagation_type self)
       (resolution_factor self);
     mkRequest (rows field * 2) (cols field * 2) (pixel_pitch self) w
       (- (zero_mode_distance self + image_location_offset self - dist))
       (propagation_type self) (resolution_factor self)]
    (match tmul Hf Hb with
     | Ok H => Ok (Some H)
     | Raise e => Raise e
     end).
Proof.
  intros Ht Ew Ef Eb. unfold generate_kernel.
  rewrite bind_get_self, Ht. cbn [String.eqb Ascii.eqb Bool.eqb].
  rewrite Ew, bind_lift_ok, bind_call_get_propagation_kernel, Ef.
  rewrite bind_lift_ok, bind_call_get_propagation_kernel, Eb.
  now destruct (tmul Hf Hb).
Qed.

(** C2.  With the strategy [back and forth], the first call for a slot
    asks the collaborator for two transfer functions, one at the distance
    [zero_mode_distance] and one at
    [-(zero_mode_distance + image_location_offset - distances[d])], both
    for the wavelength [wavelengths[c]] and the same padded shape, pixel
    pitch, propagation model and scale; when both have the shape of the
    slot, the slot then holds their elementwise product and its flag is
    set. *)
Theorem back_and_forth_kernel (g : kernel_request -> option (tensor C))
  (self : propagator) (field : tensor C) (channel_id depth_id : Z)
  (d c : nat) (H_forward H_back : tensor C) :
  wf self ->
  propagator_type self = "back and forth"%string ->
  py_index (number_of_depth_layers self) depth_id = Some d ->
  py_index (number_of_channels self) channel_id = Some c ->
  elem (generated_kernels self) d c = false ->
  g (mkRequest (rows field * 2) (cols field * 2) (pixel_pitch self)
       (nth c (wavelengths self) 0%R) (zero_mode_distance self)
       (propagation_type self) (resolution_factor self)) = Some H_forward ->
  g (mkRequest (rows field * 2) (cols field * 2) (pixel_pitch self)
       (nth c (wavelengths self) 0%R)
       (- (zero_mode_distance self + image_location_offset self
           - nth d (distances self) 0))%R
       (propagation_type self) (resolution_factor self)) = Some H_back ->
  shape H_forward = (padded_rows self, padded_cols self) ->
  shape H_back = (padded_rows self, padded_cols self) ->
  out_trace (__call__ g field channel_id depth_id self) =
    [mkRequest (rows field * 2) (cols field * 2) (pixel_pitch self)
       (nth c (wavelengths self) 0%R) (zero_mode_distance self)
       (propagation_type self) (resolution_factor self);
     mkRequest (rows field * 2) (cols field * 2) (pixel_pitch self)
       (nth c (wavelengths self) 0%R)
       (- (zero_mode_distance self + image_location_offset self
           - nth d (distances self) 0))%R
       (propagation_type self) (resolution_factor self)] /\
  elem (generated_kernels
          (out_state (__call__ g field channel_id depth_id self))) d c = true /\
  shape (elem (kernels (out_state (__call__ g field channel_id depth_id self)))
           d c) = (padded_rows self, padded_cols self) /\
  (forall i j, i < padded_rows self -> j < padded_cols self ->
     elem (elem (kernels
                   (out_state (__call__ g field channel_id depth_id self)))
             d c) i j =
     Cmul (elem H_forward i j) (elem H_back i j)).
Proof.
  intros Hwf Ht Ed Ec Hflag Ef Eb Sf Sb.
  pose proof (index_list_resolved _ _ _ _ (wf_distances Hwf) Ed) as Edist.
  pose proof (index_list_resolved _ _ _ _ (wf_wavelengths Hwf) Ec) as Ew.
  pose proof (index_pair_resolved _ _ _ _ _ _ _
                (wf_flag_rows Hwf) (wf_flag_cols Hwf) Ed Ec) as Ep.
  pose proof (index_pair_resolved _ _ _ _ _ _ _
                (wf_kernel_rows Hwf) (wf_kernel_cols Hwf) Ed Ec) as Eq.
  pose proof (wf_slot_shape Hwf d c) as Ss.
  apply shape_eq in Sf as [Sfr Sfc], Sb as [Sbr Sbc], Ss as [Ssr Ssc].
  rewrite call_unfold, Edist, Ep, Eq. cbn [fst snd]. rewrite Hflag.
  cbv zeta.
  rewrite (generate_kernel_back_and_forth g field channel_id _ self _ _ _
             Ht Ew Ef Eb).
  unfold tmul. rewrite Sfr, Sfc, Sbr, Sbc, !broadcast_dim_refl.
  cbn [out_result out_trace].
  unfold assign. cbn [rows cols]. rewrite Ssr, Ssc, !Nat.eqb_refl.
  cbn [orb andb out_state out_trace kernels generated_kernels
       with_kernels with_generated_kernels].
  split; [reflexivity|]. split; [|split].
  - cbn [tset elem]. now rewrite !Nat.eqb_refl.
  - cbn [tset elem]. now rewrite !Nat.eqb_refl.
  - intros i j Hi Hj. cbn [tset elem]. rewrite !Nat.eqb_refl.
    cbn [andb elem].
    now rewrite !(bidx_in_range _ i Hi), !(bidx_in_range _ j Hj).
Qed.

(** The first call of the two-leg instance with blank kernels. *)
Lemma back_and_forth_kernel_witness :
  List.length
    (out_trace (__call__ blank_kernels (zeros 2 2) 0 0
                  back_and_forth_instance)) = 2 /\
  elem (generated_kernels
          (out_state (__call__ blank_kernels (zeros 2 2) 0 0
                        back_and_forth_instance))) 0 0 = true /\
  elem (elem (kernels
                (out_state (__call__ blank_kernels (zeros 2 2) 0 0
                              back_and_forth_instance))) 0 0) 1 2 =
  Cmul (elem (zeros 4 4) 1 2) (elem (zeros 4 4) 1 2).
Proof.
  destruct (back_and_forth_kernel blank_kernels back_and_forth_instance
              (zeros 2 2) 0 0 0 0 (zeros 4 4) (zeros 4 4))
    as (Ht & Hf & _ & He); try reflexivity.
  - apply wf_init.
  - split; [now rewrite Ht | split; [exact Hf|]].
    apply He; cbv; lia.
Defined.

(** ** The default aperture *)

Lemma axis_coordinate_positive (n i : nat) :
  i < n -> (0 < snd (axis_coordinate n i))%Z.
Proof.
  intros Hi. unfold axis_coordinate.
  destruct (Nat.eqb_spec n 1); cbn [snd]; lia.
Qed.

(** The fraction of [axis_coordinate] is the sample of [torch.linspace]. *)
Lemma axis_coordinate_value (n i : nat) :
  i < n ->
  nth i (linspace (- INR n / 2)%R (INR n / 2)%R n) 0%R =
  (IZR (fst (axis_coordinate n i)) / IZR (snd (axis_coordinate n i)))%R.
Proof.
  intros Hi. rewrite linspace_nth by exact Hi.
  unfold axis_coordinate.
  destruct (Nat.eqb_spec n 1) as [->|Hn]; cbn [fst snd].
  - replace i with 0 by lia. cbn [INR]. lra.
  - rewrite minus_INR by lia. cbn [INR].
    rewrite !mult_IZR, !minus_IZR, !mult_IZR, <- !INR_IZR_INZ.
    assert (Hn1 : (1 < INR n)%R).
    { replace 1%R with (INR 1) by reflexivity. apply lt_INR. lia. }
    field. lra.
Qed.

(** The sample opposite to [i] on an axis has the opposite coordinate. *)
Lemma axis_coordinate_mirrored (n i : nat) :
  i < n ->
  ((fst (axis_coordinate n (n - 1 - i)) = - fst (axis_coordinate n i))%Z \/
   (n = 1 /\ i = 0)) /\
  snd (axis_coordinate n (n - 1 - i)) = snd (axis_coordinate n i).
Proof.
  intros Hi. unfold axis_coordinate.
  destruct (Nat.eqb_spec n 1) as [->|Hn]; cbn [fst snd].
  - split; [right; lia | reflexivity].
  - split; [left | reflexivity].
    rewrite Nat2Z.inj_sub by lia. rewrite Nat2Z.inj_sub by lia.
    change (Z.of_nat 1) with 1%Z. ring.
Qed.

(** The test of the mask over the fractions is the comparison of the
    distance from the centre with the radius. *)
Lemma circular_binary_mask_inside (px py : nat) (r : Z) (i j : nat) :
  i < px -> j < py ->
  elem (circular_binary_mask px py r) i j = true <->
  (sqrt ((nth i (linspace (- INR px / 2)%R (INR px / 2)%R px) 0) ^ 2 +
         (nth j (linspace (- INR py / 2)%R (INR py / 2)%R py) 0) ^ 2) < IZR r)%R.
Proof.
  intros Hi Hj.
  rewrite (axis_coordinate_value px i Hi), (axis_coordinate_value py j Hj).
  pose proof (axis_coordinate_positive px i Hi) as Hdx.
  pose proof (axis_coordinate_positive py j Hj) as Hdy.
  cbn [circular_binary_mask elem]. cbv zeta.
  set (nx := fst (axis_coordinate px i)) in *.
  set (dx := snd (axis_coordinate px i)) in *.
  set (ny := fst (axis_coordinate py j)) in *.
  set (dy := snd (axis_coordinate py j)) in *.
  apply IZR_lt in Hdx, Hdy.
  assert (Hd : (0 < (IZR dx * IZR dy) ^ 2)%R).
  { apply pow_lt. now apply Rmult_lt_0_compat. }
  assert (Hsq : ((IZR nx / IZR dx) ^ 2 + (IZR ny / IZR dy) ^ 2 =
                 ((IZR nx * IZR dy) ^ 2 + (IZR ny * IZR dx) ^ 2) /
                 (IZR dx * IZR dy) ^ 2)%R).
  { field. split; lra. }
  assert (Hnn : (0 <= (IZR nx / IZR dx) ^ 2 + (IZR ny / IZR dy) ^ 2)%R).
  { apply Rplus_le_le_0_compat; apply pow2_ge_0. }
  assert (Hz : ((nx * dy) ^ 2 + (ny * dx) ^ 2 < (r * (dx * dy)) ^ 2)%Z <->
               ((IZR nx / IZR dx) ^ 2 + (IZR ny / IZR dy) ^ 2 < IZR r ^ 2)%R).
  { rewrite Hsq. rewrite !Z.pow_2_r. split.
    - intros H. apply IZR_lt in H.
      rewrite plus_IZR, !mult_IZR in H.
      apply (Rmult_lt_reg_r ((IZR dx * IZR dy) ^ 2)); [exact Hd|].
      unfold Rdiv. rewrite Rmult_assoc, Rinv_l by lra. lra.
    - intros H. apply lt_IZR.
      rewrite plus_IZR, !mult_IZR.
      apply (Rmult_lt_compat_r ((IZR dx * IZR dy) ^ 2)) in H; [|exact Hd].
      unfold Rdiv in H. rewrite Rmult_assoc, Rinv_l in H by lra. lra. }
  rewrite andb_true_iff, Z.ltb_lt, Z.ltb_lt, Hz. split.
  - intros [Hr H]. apply IZR_lt in Hr.
    rewrite <- (sqrt_pow2 (IZR r)) by lra.
    apply sqrt_lt_1_alt. split; [exact Hnn | exact H].
  - intros H.
    pose proof (sqrt_pos ((IZR nx / IZR dx) ^ 2 + (IZR ny / IZR dy) ^ 2)) as H0.
    assert (Hr : (0 < IZR r)%R) by lra.
    split; [now apply lt_IZR|].
    rewrite <- (sqrt_pow2 (IZR r)) in H by lra.
    apply sqrt_lt_0_alt in H. exact H.
Qed.

(** The mask is the same seen from either end of each axis. *)
Lemma circular_binary_mask_centred (px py : nat) (r : Z) (i j : nat) :
  i < px -> j < py ->
  elem (circular_binary_mask px py r) (px - 1 - i) j =
    elem (circular_binary_mask px py r) i j /\
  elem (circular_binary_mask px py r) i (py - 1 - j) =
    elem (circular_binary_mask px py r) i j.
Proof.
  intros Hi Hj. cbn [circular_binary_mask elem]. cbv zeta.
  destruct (axis_coordinate_mirrored px i Hi) as [Hx ->].
  destruct (axis_coordinate_mirrored py j Hj) as [Hy ->].
  split.
  - destruct Hx as [-> | [-> ->]]; [|reflexivity].
    do 3 f_equal. ring.
  - destruct Hy as [-> | [-> ->]]; [|reflexivity].
    do 3 f_equal. ring.
Qed.

Lemma to_float_one (m : tensor bool) (i j : nat) :
  elem (to_float m) i j = C1 <-> elem m i j = true.
Proof.
  cbn [to_float elem]. destruct (elem m i j); split; intros H;
    try reflexivity; try discriminate.
  symmetry in H. destruct (C1_neq_C0 H).
Qed.

(** C6.  Called with neither an aperture nor a size, [set_aperture]
    stores a centred circular binary mask in a buffer of the padded shape
    (2 H scale, 2 W scale) whose diameter is the larger of the padded
    dimensions, max(2 H scale, 2 W scale): every entry is one or zero;
    with the buffer spanning [-rows / 2 .. rows / 2] by
    [-cols / 2 .. cols / 2] around its centre, as [torch.linspace]
    samples it, the entry (i, j) is one exactly when its sample lies
    closer to the centre than half the larger padded dimension; and the
    mask reads the same from either end of each axis. *)
Theorem default_aperture (self : propagator) :
  shape (aperture (set_aperture self None None)) =
    (2 * (fst (resolution self) * resolution_factor self),
     2 * (snd (resolution self) * resolution_factor self)) /\
  Nat.max (padded_rows self) (padded_cols self) =
    Nat.max (2 * (fst (resolution self) * resolution_factor self))
            (2 * (snd (resolution self) * resolution_factor self)) /\
  (forall i j,
     elem (aperture (set_aperture self None None)) i j = C1 \/
     elem (aperture (set_aperture self None None)) i j = C0) /\
  (forall i j, i < padded_rows self -> j < padded_cols self ->
     elem (aperture (set_aperture self None None)) i j = C1 <->
     (sqrt ((nth i (linspace (- INR (padded_rows self) / 2)%R
                      (INR (padded_rows self) / 2)%R (padded_rows self)) 0) ^ 2 +
            (nth j (linspace (- INR (padded_cols self) / 2)%R
                      (INR (padded_cols self) / 2)%R (padded_cols self)) 0) ^ 2) <
      INR (Nat.max (padded_rows self) (padded_cols self)) / 2)%R) /\
  (forall i j, i < padded_rows self -> j < padded_cols self ->
     elem (aperture (set_aperture self None None)) (padded_rows self - 1 - i) j =
       elem (aperture (set_aperture self None None)) i j /\
     elem (aperture (set_aperture self None None)) i (padded_cols self - 1 - j) =
       elem (aperture (set_aperture self None None)) i j).
Proof.
  assert (Ea : aperture (set_aperture self None None) =
    to_float (circular_binary_mask (padded_rows self) (padded_cols self)
                (Z.of_nat (Nat.max (fst (resolution self) * resolution_factor self)
                                   (snd (resolution self) * resolution_factor self)))))
    by reflexivity.
  split; [|split; [|split; [|split]]].
  - apply shape_eq. rewrite Ea. cbn [to_float circular_binary_mask rows cols].
    unfold padded_rows, padded_cols. lia.
  - unfold padded_rows, padded_cols. f_equal; lia.
  - intros i j. rewrite Ea. cbn [to_float elem].
    destruct (elem _ i j); [left | right]; reflexivity.
  - intros i j Hi Hj. rewrite Ea, to_float_one.
    rewrite (circular_binary_mask_inside _ _ _ i j Hi Hj).
    replace (INR (Nat.max (padded_rows self) (padded_cols self)) / 2)%R
      with (IZR (Z.of_nat (Nat.max (fst (resolution self) * resolution_factor self)
                                   (snd (resolution self) * resolution_factor self)))).
    + reflexivity.
    + rewrite <- INR_IZR_INZ.
      replace (Nat.max (padded_rows self) (padded_cols self))
        with (2 * Nat.max (fst (resolution self) * resolution_factor self)
                          (snd (resolution self) * resolution_factor self))
        by (unfold padded_rows, padded_cols; lia).
      rewrite mult_INR. cbn [INR]. lra.
  - intros i j Hi Hj. rewrite Ea. cbn [to_float elem].
    destruct (circular_binary_mask_centred (padded_rows self) (padded_cols self)
                (Z.of_nat (Nat.max (fst (resolution self) * resolution_factor self)
                                   (snd (resolution self) * resolution_factor self)))
                i j Hi Hj) as [-> ->].
    split; reflexivity.
Qed.

(** For resolution (4, 4) and factor 1 the buffer is 8 by 8 and the disc
    has diameter 8: it reaches the ends of both axes without including
    them, the samples (0, 4) and (7, 4) on the circle are zero, the
    samples (1, 4) and (6, 4) inside are one, and 32 of the 64 entries
    are one. *)
Lemma default_aperture_witness :
  (elem (aperture (set_aperture wide_instance None None)) (8 - 1 - 1) 4 =
     elem (aperture (set_aperture wide_instance None None)) 1 4 /\
   elem (aperture (set_aperture wide_instance None None)) 1 (8 - 1 - 4) =
     elem (aperture (set_aperture wide_instance None None)) 1 4) /\
  elem (aperture (set_aperture wide_instance None None)) 0 4 = C0 /\
  elem (aperture (set_aperture wide_instance None None)) 7 4 = C0 /\
  elem (aperture (set_aperture wide_instance None None)) 1 4 = C1 /\
  List.length
    (filter (fun ij => elem (circular_binary_mask 8 8 4) (fst ij) (snd ij))
       (list_prod (seq 0 8) (seq 0 8))) = 32.
Proof.
  split.
  - apply (default_aperture wide_instance); cbv; lia.
  - repeat split; reflexivity.
Defined.

(** ** Indices *)

Lemma py_index_above (n : nat) (i : Z) :
  (Z.of_nat n <= i)%Z -> py_index n i = None.
Proof.
  intros Hi. unfold py_index.
  destruct (Z.leb_spec 0 i), (Z.ltb_spec i (Z.of_nat n)),
    (Z.leb_spec (- Z.of_nat n) i), (Z.ltb_spec i 0); cbn; trivial; lia.
Qed.

Lemma py_index_negative (n : nat) (i : Z) :
  (- Z.of_nat n <= i <= -1)%Z ->
  py_index n i = Some (Z.to_nat (Z.of_nat n + i)).
Proof.
  intros Hi. unfold py_index.
  destruct (Z.leb_spec 0 i), (Z.ltb_spec i (Z.of_nat n)),
    (Z.leb_spec (- Z.of_nat n) i), (Z.ltb_spec i 0); cbn; trivial; lia.
Qed.

Lemma py_index_wrapped (n : nat) (i : Z) :
  (- Z.of_nat n <= i <= -1)%Z ->
  py_index n (Z.of_nat n + i) = Some (Z.to_nat (Z.of_nat n + i)).
Proof.
  intros Hi. unfold py_index.
  destruct (Z.leb_spec 0 (Z.of_nat n + i)),
    (Z.ltb_spec (Z.of_nat n + i) (Z.of_nat n)); cbn; trivial; lia.
Qed.

Lemma index_list_above (l : list R) (i : Z) :
  (Z.of_nat (List.length l) <= i)%Z -> index_list l i = Raise IndexError.
Proof. intros Hi. unfold index_list. now rewrite py_index_above. Qed.

Lemma index_pair_above {A} (t : tensor A) (i j : Z) :
  (Z.of_nat (rows t) <= i)%Z \/ (Z.of_nat (cols t) <= j)%Z ->
  index_pair t i j = Raise IndexError.
Proof.
  intros [Hi|Hj]; unfold index_pair.
  - now rewrite py_index_above.
  - rewrite (py_index_above (cols t) j Hj). now destruct (py_index (rows t) i).
Qed.

(** C8.  In a well-formed instance a forward call whose [channel_id] is
    at least [number_of_channels], or whose [depth_id] is at least
    [number_of_depth_layers], raises [IndexError]: it returns no field,
    calls no collaborator and leaves the instance as it was. *)
Theorem index_out_of_range (g : kernel_request -> option (tensor C))
  (self : propagator) (field : tensor C) (channel_id depth_id : Z) :
  wf self ->
  (Z.of_nat (number_of_channels self) <= channel_id)%Z \/
  (Z.of_nat (number_of_depth_layers self) <= depth_id)%Z ->
  __call__ g field channel_id depth_id self =
  mkOutcome self [] (Raise IndexError).
Proof.
  intros Hwf Hout. rewrite call_unfold.
  destruct Hout as [Hc|Hd].
  - rewrite (index_pair_above (generated_kernels self) depth_id channel_id)
      by (right; now rewrite (wf_flag_cols Hwf)).
    destruct (index_list (distances self) depth_id) as [dist|e] eqn:E;
      [reflexivity|].
    unfold index_list in E. destruct (py_index _ depth_id); [discriminate|].
    now injection E as <-.
  - now rewrite index_list_above by now rewrite (wf_distances Hwf).
Qed.

(** One index past the end, on either axis. *)
Lemma index_out_of_range_witness :
  __call__ blank_kernels (zeros 2 2) 1 0 forward_instance =
    mkOutcome forward_instance [] (Raise IndexError) /\
  __call__ blank_kernels (zeros 2 2) 0 1 forward_instance =
    mkOutcome forward_instance [] (Raise IndexError).
Proof.
  split; apply (index_out_of_range blank_kernels forward_instance);
    try apply wf_init.
  - left. cbv. discriminate.
  - right. cbv. discriminate.
Defined.

(** ** An unknown propagator type *)

Lemma generate_kernel_unbound g field ch dist self :
  propagator_type self <> "forward"%string ->
  propagator_type self <> "back and forth"%string ->
  generate_kernel g field ch dist self = mkOutcome self [] (Ok None).
Proof.
  intros Hf Hb. apply String.eqb_neq in Hf, Hb.
  unfold generate_kernel. now rewrite bind_get_self, Hf, Hb.
Qed.

(** C7.  When [propagator_type] is neither [forward] nor
    [back and forth], a forward call for a slot of a well-formed instance
    that is not filled yet binds no kernel and raises at the store, the
    [UnboundLocalError] that stands for the unknown propagator type; no
    collaborator is called and the instance, its flags included, is left
    as it was, so every later call for the slot fails alike.  The
    constructor itself checks nothing. *)
Theorem unknown_propagator_type (g : kernel_request -> option (tensor C))
  (self : propagator) (field : tensor C) (channel_id depth_id : Z)
  (d c : nat) :
  wf self ->
  propagator_type self <> "forward"%string ->
  propagator_type self <> "back and forth"%string ->
  py_index (number_of_depth_layers self) depth_id = Some d ->
  py_index (number_of_channels self) channel_id = Some c ->
  elem (generated_kernels self) d c = false ->
  __call__ g field channel_id depth_id self =
  mkOutcome self [] (Raise UnboundLocalError).
Proof.
  intros Hwf Hf Hb Ed Ec Hflag.
  pose proof (index_list_resolved _ _ _ _ (wf_distances Hwf) Ed) as Edist.
  pose proof (index_pair_resolved _ _ _ _ _ _ _
                (wf_flag_rows Hwf) (wf_flag_cols Hwf) Ed Ec) as Ep.
  rewrite call_unfold, Edist, Ep. cbn [fst snd]. rewrite Hflag. cbv zeta.
  now rewrite generate_kernel_unbound.
Qed.

(** The first call of an instance constructed with the type
    [sideways]. *)
Lemma unknown_propagator_type_witness :
  __call__ blank_kernels (zeros 2 2) 0 0 sideways_instance =
  mkOutcome sideways_instance [] (Raise UnboundLocalError).
Proof.
  apply (unknown_propagator_type blank_kernels sideways_instance (zeros 2 2)
           0 0 0 0); try reflexivity; try discriminate.
  apply wf_init.
Defined.

(** ** Negative indices *)

Lemma generate_kernel_channel g field ch ch' dist self :
  index_list (wavelengths self) ch = index_list (wavelengths self) ch' ->
  generate_kernel g field ch dist self = generate_kernel g field ch' dist self.
Proof.
  intros E. unfold generate_kernel. rewrite !bind_get_self. cbv beta.
  now rewrite E.
Qed.

Lemma tmul_raises (s t : tensor C) (e : exn) :
  tmul s t = Raise e -> e = RuntimeError.
Proof.
  unfold tmul.
  destruct (broadcast_dim (rows s) (rows t)); [|now intros [= <-]].
  destruct (broadcast_dim (cols s) (cols t)); [discriminate|now intros [= <-]].
Qed.

Lemma propagate_raises (self : propagator) (field H : tensor C) (e : exn) :
  propagate self field H = Raise e -> e = RuntimeError.
Proof.
  unfold propagate, propagate_U2.
  destruct (tmul H (aperture self)) as [HA|e1] eqn:E1.
  - destruct (tmul HA (propagate_U1 field)) as [U2|e2] eqn:E2; [discriminate|].
    intros [= <-]. now apply tmul_raises in E2.
  - intros [= <-]. now apply tmul_raises in E1.
Qed.

Lemma assign_raises (slot h : tensor C) (e : exn) :
  assign slot h = Raise e -> e = RuntimeError.
Proof. unfold assign. destruct (_ && _); [discriminate|now intros [= <-]]. Qed.

Lemma generate_kernel_raises g field ch dist self w e :
  index_list (wavelengths self) ch = Ok w ->
  out_result (generate_kernel g field ch dist self) = Raise e ->
  e <> IndexError.
Proof.
  intros Ew. unfold generate_kernel. rewrite bind_get_self, Ew.
  destruct (propagator_type self =? "forward")%string.
  - rewrite bind_lift_ok, bind_call_get_propagation_kernel.
    destruct (g _); [discriminate|]. now intros [= <-].
  - destruct (propagator_type self =? "back and forth")%string;
      [|discriminate].
    rewrite bind_lift_ok, bind_call_get_propagation_kernel.
    destruct (g _) as [Hf|]; [|now intros [= <-]]. cbn [out_result].
    rewrite bind_lift_ok, bind_call_get_propagation_kernel.
    destruct (g _) as [Hb|]; [|now intros [= <-]]. cbn [out_result].
    destruct (tmul Hf Hb) as [H|e'] eqn:Em; [discriminate|].
    rewrite bind_lift_raise. cbn [out_result]. intros [= <-].
    apply tmul_raises in Em. now subst.
Qed.

(** A forward call whose indices resolve raises no [IndexError]. *)
Lemma call_resolved g field ch dp self d c :
  wf self ->
  py_index (number_of_depth_layers self) dp = Some d ->
  py_index (number_of_channels self) ch = Some c ->
  out_result (__call__ g field ch dp self) <> Raise IndexError.
Proof.
  intros Hwf Ed Ec.
  pose proof (index_list_resolved _ _ _ _ (wf_distances Hwf) Ed) as Edist.
  pose proof (index_list_resolved _ _ _ _ (wf_wavelengths Hwf) Ec) as Ew.
  pose proof (index_pair_resolved _ _ _ _ _ _ _
                (wf_flag_rows Hwf) (wf_flag_cols Hwf) Ed Ec) as Ep.
  pose proof (index_pair_resolved _ _ _ _ _ _ _
                (wf_kernel_rows Hwf) (wf_kernel_cols Hwf) Ed Ec) as Eq.
  rewrite call_unfold, Edist, Ep, Eq. cbn [fst snd]. cbv zeta.
  destruct (elem (generated_kernels self) d c); cbn [out_result].
  - intros E. now apply propagate_raises in E.
  - destruct (out_result (generate_kernel g field ch _ self))
      as [[H|]|e] eqn:Eg; cbn [out_result]; try discriminate.
    + destruct (assign _ H) as [slot|e] eqn:Ea; cbn [out_result].
      * intros E. now apply propagate_raises in E.
      * intros [= ->]. now apply assign_raises in Ea.
    + intros [= ->]. now apply (generate_kernel_raises _ _ _ _ _ _ _ Ew Eg).
Qed.

(** C10.  In a well-formed instance a [channel_id] between
    [-number_of_channels] and -1 and a [depth_id] between
    [-number_of_depth_layers] and -1 are accepted: the forward call is the
    one with the indices [number_of_channels + channel_id] and
    [number_of_depth_layers + depth_id], it reads the wavelength and the
    distance at these positions, addresses the slot at these positions,
    and raises no [IndexError]. *)
Theorem negative_indices_wrap (g : kernel_request -> option (tensor C))
  (self : propagator) (field : tensor C) (channel_id depth_id : Z) :
  wf self ->
  (- Z.of_nat (number_of_channels self) <= channel_id <= -1)%Z ->
  (- Z.of_nat (number_of_depth_layers self) <= depth_id <= -1)%Z ->
  __call__ g field channel_id depth_id self =
    __call__ g field (Z.of_nat (number_of_channels self) + channel_id)
      (Z.of_nat (number_of_depth_layers self) + depth_id) self /\
  out_result (__call__ g field channel_id depth_id self) <> Raise IndexError /\
  index_list (wavelengths self) channel_id =
    Ok (nth (Z.to_nat (Z.of_nat (number_of_channels self) + channel_id))
          (wavelengths self) 0%R) /\
  index_list (distances self) depth_id =
    Ok (nth (Z.to_nat (Z.of_nat (number_of_depth_layers self) + depth_id))
          (distances self) 0%R) /\
  index_pair (generated_kernels self) depth_id channel_id =
    Ok (Z.to_nat (Z.of_nat (number_of_depth_layers self) + depth_id),
        Z.to_nat (Z.of_nat (number_of_channels self) + channel_id)).
Proof.
  intros Hwf Hc Hd.
  pose proof (py_index_negative _ _ Hc) as Ec.
  pose proof (py_index_negative _ _ Hd) as Ed.
  pose proof (py_index_wrapped _ _ Hc) as Ec'.
  pose proof (py_index_wrapped _ _ Hd) as Ed'.
  pose proof (index_list_resolved _ _ _ _ (wf_distances Hwf) Ed) as Edist.
  pose proof (index_list_resolved _ _ _ _ (wf_distances Hwf) Ed') as Edist'.
  pose proof (index_list_resolved _ _ _ _ (wf_wavelengths Hwf) Ec) as Ew.
  pose proof (index_list_resolved _ _ _ _ (wf_wavelengths Hwf) Ec') as Ew'.
  pose proof (index_pair_resolved _ _ _ _ _ _ _
                (wf_flag_rows Hwf) (wf_flag_cols Hwf) Ed Ec) as Ep.
  pose proof (index_pair_resolved _ _ _ _ _ _ _
                (wf_flag_rows Hwf) (wf_flag_cols Hwf) Ed' Ec') as Ep'.
  pose proof (index_pair_resolved _ _ _ _ _ _ _
                (wf_kernel_rows Hwf) (wf_kernel_cols Hwf) Ed Ec) as Eq.
  pose proof (index_pair_resolved _ _ _ _ _ _ _
                (wf_kernel_rows Hwf) (wf_kernel_cols Hwf) Ed' Ec') as Eq'.
  split; [|split; [|repeat split; assumption]].
  - rewrite !call_unfold, Edist, Edist', Ep, Ep', Eq, Eq'.
    rewrite (generate_kernel_channel g field channel_id
               (Z.of_nat (number_of_channels self) + channel_id));
      [reflexivity | congruence].
  - now apply (call_resolved g field channel_id depth_id self _ _ Hwf Ed Ec).
Qed.

(** The last layer of three, addressed as -1 and as 2. *)
Lemma negative_indices_wrap_witness :
  __call__ blank_kernels (zeros 2 2) (-1) (-1) three_layers =
    __call__ blank_kernels (zeros 2 2) (1 + -1) (3 + -1) three_layers /\
  index_list (distances three_layers) (-1) =
    Ok (nth 2 (distances three_layers) 0%R).
Proof.
  destruct (negative_indices_wrap blank_kernels three_layers (zeros 2 2)
              (-1) (-1)) as (Hcall & _ & _ & Hdist & _).
  - apply wf_init.
  - cbv. split; discriminate.
  - cbv. split; discriminate.
  - split; [exact Hcall | exact Hdist].
Defined.

(* ================================================================== *)
(** * Further properties of the class *)

(** ** Which indices a forward call accepts *)

Lemma py_index_in_range (n : nat) (i : Z) :
  (- Z.of_nat n <= i < Z.of_nat n)%Z -> exists k, py_index n i = Some k.
Proof.
  intros Hi. unfold py_index.
  destruct (Z.leb_spec 0 i), (Z.ltb_spec i (Z.of_nat n)),
    (Z.leb_spec (- Z.of_nat n) i), (Z.ltb_spec i 0); cbn; eauto; lia.
Qed.

Lemma py_index_out_of_range (n : nat) (i : Z) :
  ~ (- Z.of_nat n <= i < Z.of_nat n)%Z -> py_index n i = None.
Proof.
  intros Hi. unfold py_index.
  destruct (Z.leb_spec 0 i), (Z.ltb_spec i (Z.of_nat n)),
    (Z.leb_spec (- Z.of_nat n) i), (Z.ltb_spec i 0); cbn; trivial; lia.
Qed.

(** X1.  In a well-formed instance a forward call raises [IndexError]
    exactly when [depth_id] is outside
    [-number_of_depth_layers, number_of_depth_layers) or [channel_id] is
    outside [-number_of_channels, number_of_channels); it does so before
    calling the collaborator and leaves the instance as it was. *)
Theorem index_error_iff (g : kernel_request -> option (tensor C))
  (self : propagator) (field : tensor C) (channel_id depth_id : Z) :
  wf self ->
  (out_result (__call__ g field channel_id depth_id self) = Raise IndexError
   <-> ~ ((- Z.of_nat (number_of_depth_layers self) <= depth_id
           < Z.of_nat (number_of_depth_layers self))%Z /\
          (- Z.of_nat (number_of_channels self) <= channel_id
           < Z.of_nat (number_of_channels self))%Z)) /\
  (out_result (__call__ g field channel_id depth_id self) = Raise IndexError ->
   __call__ g field channel_id depth_id self =
   mkOutcome self [] (Raise IndexError)).
Proof.
  intros Hwf.
  assert (Hin : (- Z.of_nat (number_of_depth_layers self) <= depth_id
                 < Z.of_nat (number_of_depth_layers self))%Z ->
                (- Z.of_nat (number_of_channels self) <= channel_id
                 < Z.of_nat (number_of_channels self))%Z ->
                out_result (__call__ g field channel_id depth_id self)
                <> Raise IndexError).
  { intros Hd Hc.
    destruct (py_index_in_range _ _ Hd) as (d & Ed).
    destruct (py_index_in_range _ _ Hc) as (c & Ec).
    now apply (call_resolved g field channel_id depth_id self d c). }
  assert (Hout : ~ ((- Z.of_nat (number_of_depth_layers self) <= depth_id
                     < Z.of_nat (number_of_depth_layers self))%Z /\
                    (- Z.of_nat (number_of_channels self) <= channel_id
                     < Z.of_nat (number_of_channels self))%Z) ->
                 __call__ g field channel_id depth_id self =
                 mkOutcome self [] (Raise IndexError)).
  { intros Hno. rewrite call_unfold.
    unfold index_list, index_pair.
    rewrite (wf_distances Hwf), (wf_flag_rows Hwf), (wf_flag_cols Hwf).
    destruct (py_index (number_of_depth_layers self) depth_id) as [d|] eqn:Ed;
      [|reflexivity].
    destruct (py_index (number_of_channels self) channel_id) as [c|] eqn:Ec;
      [|reflexivity].
    exfalso. apply Hno. split.
    - destruct (Z_lt_le_dec depth_id (Z.of_nat (number_of_depth_layers self)));
        [|now rewrite py_index_above in Ed].
      destruct (Z_le_gt_dec (- Z.of_nat (number_of_depth_layers self)) depth_id);
        [lia|].
      rewrite py_index_out_of_range in Ed by lia. discriminate.
    - destruct (Z_lt_le_dec channel_id (Z.of_nat (number_of_channels self)));
        [|now rewrite py_index_above in Ec].
      destruct (Z_le_gt_dec (- Z.of_nat (number_of_channels self)) channel_id);
        [lia|].
      rewrite py_index_out_of_range in Ec by lia. discriminate. }
  split; [split|].
  - intros E [Hd Hc]. now apply (Hin Hd Hc).
  - intros Hno. now rewrite (Hout Hno).
  - intros E. apply Hout. intros [Hd Hc]. now apply (Hin Hd Hc).
Qed.

(** An index below the range raises like one above it. *)
Lemma index_error_iff_witness :
  __call__ blank_kernels (zeros 2 2) (-2) 0 forward_instance =
  mkOutcome forward_instance [] (Raise IndexError).
Proof.
  destruct (index_error_iff blank_kernels forward_instance (zeros 2 2) (-2) 0
              (wf_init _ _ _ _ _ _ _ _ _ _ _ _ _)) as [[_ Hraise] Hstate].
  apply Hstate, Hraise. cbv. intros [_ [H _]]. now apply H.
Defined.

(** ** What a failing call leaves behind *)

(** X2.  A forward call that raises anything but [RuntimeError], that is
    an index error, an unbound kernel or an exception of the collaborator,
    leaves the instance exactly as it was; so does every call after which
    the flag of the addressed slot is still false.  Only the
    [RuntimeError] of [propagate] can follow a store. *)
Theorem failed_call_state (g : kernel_request -> option (tensor C))
  (self : propagator) (field : tensor C) (channel_id depth_id : Z) :
  (forall e,
     out_result (__call__ g field channel_id depth_id self) = Raise e ->
     e <> RuntimeError ->
     out_state (__call__ g field channel_id depth_id self) = self) /\
  (forall d c,
     index_pair (generated_kernels self) depth_id channel_id = Ok (d, c) ->
     elem (generated_kernels
             (out_state (__call__ g field channel_id depth_id self))) d c
     = false ->
     out_state (__call__ g field channel_id depth_id self) = self).
Proof.
  split.
  - intros e. call_cases; trivial.
    intros E Hne. now apply propagate_raises in E.
  - intros d c Ep. rewrite call_unfold, Ep. cbn [fst snd]. cbv zeta.
    destruct (index_list (distances self) depth_id) as [dist|]; trivial.
    destruct (elem (generated_kernels self) d c).
    + now destruct (index_pair (kernels self) depth_id channel_id).
    + destruct (out_result (generate_kernel g field channel_id dist self))
        as [[H|]|e]; trivial.
      destruct (index_pair (kernels self) depth_id channel_id); trivial.
      destruct (assign _ H); trivial.
      cbn. now rewrite !Nat.eqb_refl.
Qed.

(** A collaborator that raises: nothing is stored. *)
Lemma failed_call_state_witness :
  out_state (__call__ (fun _ => None) (zeros 2 2) 0 0 forward_instance)
  = forward_instance.
Proof.
  apply (proj1 (failed_call_state (fun _ => None) forward_instance
                  (zeros 2 2) 0 0) CollaboratorError);
    [reflexivity | discriminate].
Defined.

(** ** What a call writes *)

Lemma tset_elsewhere {A} (t : tensor A) i j v i' j' :
  (i' =? i) && (j' =? j) = false -> elem (tset t i j v) i' j' = elem t i' j'.
Proof. intros E. cbn. now rewrite E. Qed.

(** X3.  A forward call on a well-formed instance writes at most the one
    cache slot it addresses and its flag: every other slot and flag, the
    aperture, the depth schedule, the wavelengths, the channel powers and
    the configuration are the ones from before. *)
Theorem call_writes_own_slot (g : kernel_request -> option (tensor C))
  (self : propagator) (rq : request) :
  wf self ->
  (forall d c,
     addresses self rq d c = false ->
     elem (kernels (out_state (call g self rq))) d c = elem (kernels self) d c /\
     elem (generated_kernels (out_state (call g self rq))) d c =
       elem (generated_kernels self) d c) /\
  aperture (out_state (call g self rq)) = aperture self /\
  distances (out_state (call g self rq)) = distances self /\
  wavelengths (out_state (call g self rq)) = wavelengths self /\
  channel_power (out_state (call g self rq)) = channel_power self /\
  propagator_type (out_state (call g self rq)) = propagator_type self /\
  resolution (out_state (call g self rq)) = resolution self /\
  resolution_factor (out_state (call g self rq)) = resolution_factor self.
Proof.
  intros Hwf. split.
  - intros d c. unfold addresses, call.
    rewrite call_unfold, (index_pair_kernels self _ _ Hwf). cbv zeta.
    destruct (index_list (distances self) (call_depth_id rq)) as [dist|];
      [|now split].
    destruct (index_pair (generated_kernels self) (call_depth_id rq)
                (call_channel_id rq)) as [[d' c']|]; [|now split].
    cbn [fst snd]. intros Ha.
    destruct (elem (generated_kernels self) d' c'); [now split|].
    destruct (out_result (generate_kernel g (call_field rq)
                            (call_channel_id rq) dist self))
      as [[H|]|e]; try now split.
    destruct (assign _ H); [|now split].
    cbn [out_state kernels generated_kernels with_kernels
         with_generated_kernels].
    rewrite Nat.eqb_sym, (Nat.eqb_sym c' c) in Ha.
    split; now apply tset_elsewhere.
  - unfold call.
    destruct (call_writes g (call_field rq) (call_channel_id rq)
                (call_depth_id rq) self) as (K & G & ->).
    repeat split.
Qed.

(** A second depth layer is not touched by a call for the first. *)
Lemma call_writes_own_slot_witness :
  elem (generated_kernels (out_state (call blank_kernels three_layers
                                        shaped_call))) 1 0 = false /\
  elem (generated_kernels (out_state (call blank_kernels three_layers
                                        shaped_call))) 0 0 = true.
Proof.
  split; [|reflexivity].
  destruct (call_writes_own_slot blank_kernels three_layers shaped_call
              (wf_init _ _ _ _ _ _ _ _ _ _ _ _ _)) as [Hslot _].
  destruct (Hslot 1 0 eq_refl) as [_ ->]. reflexivity.
Defined.

(** ** The kernel of the forward strategy *)

Lemma generate_kernel_forward g field ch dist self w H :
  propagator_type self = "forward"%string ->
  index_list (wavelengths self) ch = Ok w ->
  g (mkRequest (rows field * 2) (cols field * 2) (pixel_pitch self) w
       dist (propagation_type self) (resolution_factor self)) = Some H ->
  generate_kernel g field ch dist self =
  mkOutcome self
    [mkRequest (rows field * 2) (cols field * 2) (pixel_pitch self) w
       dist (propagation_type self) (resolution_factor self)]
    (Ok (Some H)).
Proof.
  intros Ht Ew Eg. unfold generate_kernel.
  rewrite bind_get_self, Ht. cbn [String.eqb Ascii.eqb Bool.eqb].
  now rewrite Ew, bind_lift_ok, bind_call_get_propagation_kernel, Eg.
Qed.

Lemma forward_call_outcome (g : kernel_request -> option (tensor C))
  (self : propagator) (field : tensor C) (channel_id depth_id : Z)
  (d c : nat) (H : tensor C) :
  wf self ->
  propagator_type self = "forward"%string ->
  py_index (number_of_depth_layers self) depth_id = Some d ->
  py_index (number_of_channels self) channel_id = Some c ->
  elem (generated_kernels self) d c = false ->
  g (mkRequest (rows field * 2) (cols field * 2) (pixel_pitch self)
       (nth c (wavelengths self) 0%R) (nth d (distances self) 0%R)
       (propagation_type self) (resolution_factor self)) = Some H ->
  shape H = (padded_rows self, padded_cols self) ->
  __call__ g field channel_id depth_id self =
  mkOutcome
    (with_generated_kernels
       (with_kernels self
          (tset (kernels self) d c
             (mkTensor (padded_rows self) (padded_cols self)
                (fun i j => elem H (bidx (padded_rows self) i)
                              (bidx (padded_cols self) j)))))
       (tset (generated_kernels self) d c true))
    [mkRequest (rows field * 2) (cols field * 2) (pixel_pitch self)
       (nth c (wavelengths self) 0%R) (nth d (distances self) 0%R)
       (propagation_type self) (resolution_factor self)]
    (propagate self field H).
Proof.
  intros Hwf Ht Ed Ec Hflag Eg SH.
  pose proof (index_list_resolved _ _ _ _ (wf_distances Hwf) Ed) as Edist.
  pose proof (index_list_resolved _ _ _ _ (wf_wavelengths Hwf) Ec) as Ew.
  pose proof (index_pair_resolved _ _ _ _ _ _ _
                (wf_flag_rows Hwf) (wf_flag_cols Hwf) Ed Ec) as Ep.
  pose proof (index_pair_resolved _ _ _ _ _ _ _
                (wf_kernel_rows Hwf) (wf_kernel_cols Hwf) Ed Ec) as Eq.
  pose proof (wf_slot_shape Hwf d c) as Ss.
  apply shape_eq in SH as [SHr SHc], Ss as [Ssr Ssc].
  rewrite call_unfold, Edist, Ep, Eq. cbn [fst snd]. rewrite Hflag.
  cbv zeta.
  rewrite (generate_kernel_forward g field channel_id _ self _ _ Ht Ew Eg).
  cbn [out_result out_trace].
  unfold assign. rewrite SHr, SHc, Ssr, Ssc, !Nat.eqb_refl.
  reflexivity.
Qed.

(** X4.  With the strategy [forward], the first call for a slot asks the
    collaborator once, for the distance [distances[d]], the wavelength
    [wavelengths[c]], twice the rows and columns of the input field, and
    the pixel pitch, propagation model and scale of the instance.  When
    the kernel has the shape of the slot, the slot then holds it, its flag
    is set, and the call returns what [propagate] gives for that
    kernel. *)
Theorem forward_kernel (g : kernel_request -> option (tensor C))
  (self : propagator) (field : tensor C) (channel_id depth_id : Z)
  (d c : nat) (H : tensor C) :
  wf self ->
  propagator_type self = "forward"%string ->
  py_index (number_of_depth_layers self) depth_id = Some d ->
  py_index (number_of_channels self) channel_id = Some c ->
  elem (generated_kernels self) d c = false ->
  g (mkRequest (rows field * 2) (cols field * 2) (pixel_pitch self)
       (nth c (wavelengths self) 0%R) (nth d (distances self) 0%R)
       (propagation_type self) (resolution_factor self)) = Some H ->
  shape H = (padded_rows self, padded_cols self) ->
  out_trace (__call__ g field channel_id depth_id self) =
    [mkRequest (rows field * 2) (cols field * 2) (pixel_pitch self)
       (nth c (wavelengths self) 0%R) (nth d (distances self) 0%R)
       (propagation_type self) (resolution_factor self)] /\
  elem (generated_kernels
          (out_state (__call__ g field channel_id depth_id self))) d c = true /\
  tensor_eq (elem (kernels (out_state (__call__ g field channel_id depth_id
                                         self))) d c) H /\
  out_result (__call__ g field channel_id depth_id self) =
    propagate self field H.
Proof.
  intros Hwf Ht Ed Ec Hflag Eg SH.
  rewrite (forward_call_outcome g self field channel_id depth_id d c H)
    by assumption.
  apply shape_eq in SH as [SHr SHc].
  cbn [out_state out_trace out_result kernels generated_kernels
       with_kernels with_generated_kernels].
  split; [reflexivity|]. split; [|split; [|reflexivity]].
  - cbn [tset elem]. now rewrite !Nat.eqb_refl.
  - unfold tensor_eq. cbn [tset elem]. rewrite !Nat.eqb_refl.
    cbn [andb rows cols elem]. repeat split; try congruence.
    intros i j Hi Hj.
    now rewrite !(bidx_in_range _ i Hi), !(bidx_in_range _ j Hj).
Qed.

(** The first call of the forward instance with blank kernels. *)
Lemma forward_kernel_witness :
  List.length (out_trace (__call__ blank_kernels (zeros 2 2) 0 0
                            forward_instance)) = 1 /\
  tensor_eq (elem (kernels (out_state (__call__ blank_kernels (zeros 2 2) 0 0
                                         forward_instance))) 0 0)
    (zeros 4 4).
Proof.
  destruct (forward_kernel blank_kernels forward_instance (zeros 2 2) 0 0 0 0
              (zeros 4 4)) as (Ht & _ & He & _); try reflexivity.
  - apply wf_init.
  - split; [now rewrite Ht | exact He].
Defined.

(** ** The cached kernel stands for the generated one *)

Lemma tensor_eq_refl {A} (t : tensor A) : tensor_eq t t.
Proof. unfold tensor_eq. auto. Qed.

Lemma tensor_eq_scaled (x y : tensor C) : tensor_eq x y -> scaled_by C1 x y.
Proof.
  intros (Hr & Hc & He). unfold scaled_by. repeat split; try congruence.
  intros i j Hi Hj. now rewrite Cmul_1_l, He.
Qed.

Lemma scaled_tensor_eq (x y : tensor C) : scaled_by C1 x y -> tensor_eq y x.
Proof.
  intros (Hr & Hc & He). unfold tensor_eq. repeat split; trivial.
  intros i j Hi Hj. rewrite He, Cmul_1_l by congruence. reflexivity.
Qed.

Lemma bidx_left_in_range (a b r i : nat) :
  broadcast_dim a b = Some r -> i < r -> bidx a i < a.
Proof.
  unfold broadcast_dim, bidx.
  destruct (Nat.eqb_spec a b), (Nat.eqb_spec a 1), (Nat.eqb_spec b 1);
    intros [= <-]; lia.
Qed.

(** Scaling the left operand of a product scales the product. *)
Lemma tmul_left_scaled (a : C) (K K' x : tensor C) :
  scaled_by a K K' ->
  (forall u, tmul K x = Ok u ->
     exists v, tmul K' x = Ok v /\ scaled_by a u v) /\
  (forall e, tmul K x = Raise e -> tmul K' x = Raise e).
Proof.
  intros (Hr & Hc & He). unfold tmul. rewrite Hr, Hc.
  destruct (broadcast_dim (rows K) (rows x)) as [r|] eqn:Er;
    [|split; [discriminate | trivial]].
  destruct (broadcast_dim (cols K) (cols x)) as [c|] eqn:Ec;
    [|split; [discriminate | trivial]].
  split; [|discriminate].
  intros u [= <-]. eexists; split; [reflexivity|].
  unfold scaled_by; cbn [rows cols elem]. repeat split; trivial.
  intros i j Hi Hj. rewrite He.
  - symmetry. apply Cmul_assoc.
  - eapply bidx_left_in_range; eassumption.
  - eapply bidx_left_in_range; eassumption.
Qed.

(** [propagate] with a scaled kernel. *)
Lemma propagate_kernel_scaled (self : propagator) (a : C)
  (field H H' : tensor C) :
  scaled_by a H H' ->
  (forall r, propagate self field H = Ok r ->
     exists r', propagate self field H' = Ok r' /\ scaled_by a r r') /\
  (forall e, propagate self field H = Raise e ->
     propagate self field H' = Raise e).
Proof.
  intros HH. unfold propagate, propagate_U2.
  destruct (tmul_left_scaled a H H' (aperture self) HH) as [Hok Hraise].
  destruct (tmul H (aperture self)) as [HA|e].
  - destruct (Hok HA eq_refl) as (HA' & -> & Hs).
    destruct (tmul_left_scaled a HA HA' (propagate_U1 field) Hs)
      as [Hok2 Hraise2].
    destruct (tmul HA (propagate_U1 field)) as [U2|e].
    + destruct (Hok2 U2 eq_refl) as (U2' & -> & Hu).
      split; [|discriminate].
      intros r [= <-]. eexists; split; [reflexivity|].
      now apply crop_center_scaled, propagate_result_padded_scaled.
    + rewrite (Hraise2 e eq_refl). split; [discriminate | trivial].
  - rewrite (Hraise e eq_refl). split; [discriminate | trivial].
Qed.

(** What the store puts in a slot acts in a product like the kernel that
    was stored. *)
Lemma assign_tensor_eq (slot H slot' : tensor C) :
  assign slot H = Ok slot' ->
  shape H = shape slot ->
  tensor_eq H slot'.
Proof.
  unfold assign. intros E Hs. apply shape_eq in Hs as [Hr Hc].
  destruct (_ && _); [|discriminate]. injection E as <-.
  unfold tensor_eq; cbn [rows cols elem]. repeat split; trivial.
  intros i j Hi Hj. now rewrite !bidx_in_range.
Qed.

Lemma call_hit g field ch dp self d c dist :
  index_list (distances self) dp = Ok dist ->
  index_pair (generated_kernels self) dp ch = Ok (d, c) ->
  index_pair (kernels self) dp ch = Ok (d, c) ->
  elem (generated_kernels self) d c = true ->
  __call__ g field ch dp self =
  mkOutcome self [] (propagate self field (elem (kernels self) d c)).
Proof.
  intros Edist Ep Eq Hf. rewrite call_unfold, Edist, Ep, Eq.
  cbn [fst snd]. now rewrite Hf.
Qed.

Lemma generate_kernel_shape g field ch dist self (S : nat * nat) H :
  (forall rq K,
     In rq (out_trace (generate_kernel g field ch dist self)) ->
     g rq = Some K -> shape K = S) ->
  out_result (generate_kernel g field ch dist self) = Ok (Some H) ->
  shape H = S.
Proof.
  unfold generate_kernel. rewrite bind_get_self.
  destruct (propagator_type self =? "forward")%string.
  - destruct (index_list (wavelengths self) ch) as [w|];
      [rewrite bind_lift_ok | rewrite bind_lift_raise; discriminate].
    rewrite bind_call_get_propagation_kernel.
    match goal with |- context [g ?rq] => destruct (g rq) as [H0|] eqn:E0 end;
      [|discriminate].
    cbn. intros Hg [= <-]. eapply Hg; [left; reflexivity | exact E0].
  - destruct (propagator_type self =? "back and forth")%string;
      [|discriminate].
    destruct (index_list (wavelengths self) ch) as [w|];
      [rewrite bind_lift_ok | rewrite bind_lift_raise; discriminate].
    rewrite bind_call_get_propagation_kernel.
    match goal with |- context [g ?rq] => destruct (g rq) as [Hf|] eqn:Ef end;
      [|discriminate].
    cbn [out_result out_trace].
    rewrite bind_lift_ok, bind_call_get_propagation_kernel.
    match goal with
    | |- context [match g ?rq with _ => _ end] =>
        destruct (g rq) as [Hb|] eqn:Eb
    end; [|discriminate].
    cbn [out_result out_trace].
    destruct (tmul Hf Hb) as [K|e] eqn:Em;
      [rewrite bind_lift_ok | rewrite bind_lift_raise; discriminate].
    cbn. intros Hg [= <-].
    assert (Sf : shape Hf = S) by (eapply Hg; [left; reflexivity | exact Ef]).
    assert (Sb : shape Hb = S)
      by (eapply Hg; [right; left; reflexivity | exact Eb]).
    destruct S as [sr sc].
    apply shape_eq in Sf as [Sfr Sfc], Sb as [Sbr Sbc].
    revert Em. unfold tmul. rewrite Sfr, Sfc, Sbr, Sbc, !broadcast_dim_refl.
    now intros [= <-].
Qed.

(** X5.  Memoisation does not change results.  When a forward call of a
    well-formed instance returns a field, and the kernels the collaborator
    returned to it have the shape of the cache slot, the same call made
    again returns the same field; the second call invokes no collaborator
    and leaves the instance as the first call left it. *)
Theorem cached_call (g : kernel_request -> option (tensor C))
  (self : propagator) (field : tensor C) (channel_id depth_id : Z)
  (r : tensor C) :
  wf self ->
  (forall rq H,
     In rq (out_trace (__call__ g field channel_id depth_id self)) ->
     g rq = Some H ->
     shape H = (padded_rows self, padded_cols self)) ->
  out_result (__call__ g field channel_id depth_id self) = Ok r ->
  out_trace (__call__ g field channel_id depth_id
               (out_state (__call__ g field channel_id depth_id self))) = [] /\
  out_state (__call__ g field channel_id depth_id
               (out_state (__call__ g field channel_id depth_id self))) =
    out_state (__call__ g field channel_id depth_id self) /\
  exists r',
    out_result (__call__ g field channel_id depth_id
                  (out_state (__call__ g field channel_id depth_id self)))
    = Ok r' /\
    tensor_eq r' r.
Proof.
  intros Hwf.
  rewrite (call_unfold g field channel_id depth_id self).
  rewrite (index_pair_kernels self _ _ Hwf). cbv zeta.
  destruct (index_list (distances self) depth_id) as [dist|] eqn:Edist;
    [|discriminate].
  destruct (index_pair (generated_kernels self) depth_id channel_id)
    as [[d c]|] eqn:Ep; [|discriminate].
  pose proof Ep as Eq. rewrite <- (index_pair_kernels self _ _ Hwf) in Eq.
  cbn [fst snd].
  destruct (elem (generated_kernels self) d c) eqn:Hflag.
  - cbn [out_state out_result]. intros _ E.
    rewrite (call_hit g field channel_id depth_id self d c dist
               Edist Ep Eq Hflag).
    cbn [out_state out_trace out_result]. repeat split.
    exists r. split; [exact E | apply tensor_eq_refl].
  - pose proof (generate_kernel_shape g field channel_id dist self
                  (padded_rows self, padded_cols self)) as Hshape.
    destruct (out_result (generate_kernel g field channel_id dist self))
      as [[H|]|e] eqn:Eg; try discriminate.
    destruct (assign (elem (kernels self) d c) H) as [slot|] eqn:Ea;
      [|discriminate].
    cbn [out_state out_trace out_result]. intros Hg E.
    specialize (Hshape H Hg eq_refl).
    set (self' := with_generated_kernels _ _) in *.
    assert (Eslot : tensor_eq H slot).
    { apply (assign_tensor_eq _ _ _ Ea).
      now rewrite Hshape, (wf_slot_shape Hwf d c). }
    assert (Ehit : __call__ g field channel_id depth_id self' =
                   mkOutcome self' [] (propagate self' field slot)).
    { replace slot with (elem (kernels self') d c)
        by (cbn; now rewrite !Nat.eqb_refl).
      apply (call_hit g field channel_id depth_id self' d c dist);
        trivial.
      cbn. now rewrite !Nat.eqb_refl. }
    rewrite Ehit. cbn [out_state out_trace out_result]. repeat split.
    destruct (propagate_kernel_scaled self' C1 field H slot
                (tensor_eq_scaled _ _ Eslot)) as [Hok _].
    destruct (Hok r E) as (r' & Er' & Hs).
    exists r'. split; [exact Er' | now apply scaled_tensor_eq].
Qed.

(** The forward instance, called twice with the same field. *)
Lemma cached_call_witness :
  out_trace (call blank_kernels filled_instance shaped_call) = [] /\
  out_state (call blank_kernels filled_instance shaped_call) = filled_instance.
Proof.
  destruct (propagate_returns forward_instance (zeros 2 2) (zeros 4 4)
              eq_refl eq_refl) as (r & E & _).
  pose proof (forward_call_outcome blank_kernels forward_instance (zeros 2 2)
                0 0 0 0 (zeros 4 4) (wf_init _ _ _ _ _ _ _ _ _ _ _ _ _)
                eq_refl eq_refl eq_refl eq_refl eq_refl eq_refl) as Ecall.
  destruct (cached_call blank_kernels forward_instance (zeros 2 2) 0 0 r)
    as (Ht & Hs & _).
  - apply wf_init.
  - rewrite Ecall. intros rq H [<-|[]] [= <-]. reflexivity.
  - now rewrite Ecall.
  - split; [exact Ht | exact Hs].
Defined.

(** ** Replacing the aperture *)

(** X6.  A new aperture takes effect at once, also for pairs whose kernel
    is cached: on a well-formed instance the forward call for a filled
    slot made after [set_aperture] applies the new aperture to the kernel
    cached before, invokes no collaborator and writes nothing. *)
Theorem call_after_set_aperture (g : kernel_request -> option (tensor C))
  (self : propagator) (a : option (tensor C)) (size : option Z)
  (field : tensor C) (channel_id depth_id : Z) (d c : nat) :
  wf self ->
  py_index (number_of_depth_layers self) depth_id = Some d ->
  py_index (number_of_channels self) channel_id = Some c ->
  elem (generated_kernels self) d c = true ->
  __call__ g field channel_id depth_id (set_aperture self a size) =
  mkOutcome (set_aperture self a size) []
    (propagate (set_aperture self a size) field (elem (kernels self) d c)).
Proof.
  intros Hwf Ed Ec Hflag.
  pose proof (index_list_resolved _ _ _ _ (wf_distances Hwf) Ed) as Edist.
  pose proof (index_pair_resolved _ _ _ _ _ _ _
                (wf_flag_rows Hwf) (wf_flag_cols Hwf) Ed Ec) as Ep.
  pose proof (index_pair_resolved _ _ _ _ _ _ _
                (wf_kernel_rows Hwf) (wf_kernel_cols Hwf) Ed Ec) as Eq.
  replace (elem (kernels self) d c)
    with (elem (kernels (set_aperture self a size)) d c)
    by (destruct a; reflexivity).
  apply (call_hit g field channel_id depth_id (set_aperture self a size)
           d c (nth d (distances self) 0%R));
    destruct a; assumption.
Qed.

(** The filled slot of the forward instance, after a new default
    aperture. *)
Lemma call_after_set_aperture_witness :
  out_trace (__call__ blank_kernels (zeros 2 2) 0 0
               (set_aperture filled_instance None (Some 1%Z))) = [] /\
  out_state (__call__ blank_kernels (zeros 2 2) 0 0
               (set_aperture filled_instance None (Some 1%Z))) =
    set_aperture filled_instance None (Some 1%Z).
Proof.
  rewrite (call_after_set_aperture blank_kernels filled_instance None
             (Some 1%Z) (zeros 2 2) 0 0 0 0); try reflexivity.
  - split; reflexivity.
  - apply wf_call, wf_init.
Defined.

Lemma broadcast_dim_even_differ (h k : nat) :
  h <> k -> broadcast_dim (2 * h) (2 * k) = None.
Proof.
  intros Hne. unfold broadcast_dim.
  destruct (Nat.eqb_spec (2 * h) (2 * k)); [lia|].
  destruct (Nat.eqb_spec (2 * h) 1); [lia|].
  destruct (Nat.eqb_spec (2 * k) 1); [lia | reflexivity].
Qed.

(** X7.  A supplied aperture has to come at the unpadded shape of the
    fields: [set_aperture] pads it by two, so after it [propagate], given
    a kernel of the padded shape of the field, returns a field of the
    shape of its input when the aperture had that shape, and raises
    [RuntimeError] when it had any other. *)
Theorem supplied_aperture_shape (self : propagator) (a : tensor C)
  (size : option Z) (field H : tensor C) :
  shape H = (2 * rows field, 2 * cols field) ->
  (shape a = shape field ->
   exists r, propagate (set_aperture self (Some a) size) field H = Ok r /\
             shape r = shape field) /\
  (shape a <> shape field ->
   propagate (set_aperture self (Some a) size) field H = Raise RuntimeError).
Proof.
  intros SH. split.
  - intros Sa. apply propagate_returns; [assumption|].
    apply shape_eq in Sa as [Sr Sc]. apply shape_eq.
    cbn [set_aperture aperture with_aperture zero_pad rows cols].
    now rewrite Sr, Sc.
  - intros Sa. apply shape_eq in SH as [SHr SHc].
    unfold propagate, propagate_U2, tmul.
    cbn [set_aperture aperture with_aperture zero_pad rows cols].
    rewrite SHr, SHc.
    destruct (Nat.eq_dec (rows field) (rows a)) as [Er|Er].
    + destruct (Nat.eq_dec (cols field) (cols a)) as [Ec|Ec].
      * exfalso. apply Sa. apply shape_eq. now split.
      * rewrite (broadcast_dim_even_differ _ _ Ec).
        now destruct (broadcast_dim _ _).
    + now rewrite (broadcast_dim_even_differ _ _ Er).
Qed.

(** An aperture of the shape of the field, and one that was padded
    already. *)
Lemma supplied_aperture_shape_witness :
  (exists r, propagate (set_aperture forward_instance (Some (zeros 2 2)) None)
               (zeros 2 2) (zeros 4 4) = Ok r /\
             shape r = shape (zeros 2 2)) /\
  propagate (set_aperture forward_instance (Some (zeros 4 4)) None)
    (zeros 2 2) (zeros 4 4) = Raise RuntimeError.
Proof.
  split.
  - apply (supplied_aperture_shape forward_instance (zeros 2 2) None
             (zeros 2 2) (zeros 4 4)); reflexivity.
  - apply (supplied_aperture_shape forward_instance (zeros 4 4) None
             (zeros 2 2) (zeros 4 4)); [reflexivity | discriminate].
Defined.

(** ** Operations write four attributes *)

Lemma perform_all_writes g os self :
  exists A K G P,
    perform_all g self os =
    with_channel_power
      (with_generated_kernels (with_kernels (with_aperture self A) K) G) P.
Proof.
  revert self. induction os as [|o os IH]; intros self.
  - exists (aperture self), (kernels self), (generated_kernels self),
      (channel_power self). now destruct self.
  - cbn [perform_all fold_left]. fold (perform_all g (perform g self o) os).
    destruct (IH (perform g self o)) as (A & K & G & P & ->).
    destruct (perform_writes g self o) as (A' & K' & G' & P' & ->).
    exists A, K, G, P. reflexivity.
Qed.

Lemma index_list_value (l : list R) (i : Z) (x : R) :
  index_list l i = Ok x -> exists k, k < List.length l /\ x = nth k l 0%R.
Proof.
  unfold index_list, py_index.
  destruct (Z.leb_spec 0 i), (Z.ltb_spec i (Z.of_nat (List.length l)));
    cbn [andb].
  - intros [= <-]. exists (Z.to_nat i). split; [lia | reflexivity].
  - destruct (Z.leb_spec (- Z.of_nat (List.length l)) i), (Z.ltb_spec i 0);
      cbn [andb]; try discriminate.
    intros [= <-]. eexists. split; [|reflexivity]. lia.
  - destruct (Z.leb_spec (- Z.of_nat (List.length l)) i), (Z.ltb_spec i 0);
      cbn [andb]; try discriminate.
    intros [= <-]. eexists. split; [|reflexivity]. lia.
  - destruct (Z.leb_spec (- Z.of_nat (List.length l)) i), (Z.ltb_spec i 0);
      cbn [andb]; try discriminate.
    intros [= <-]. eexists. split; [|reflexivity]. lia.
Qed.

(** The two requests of the two-leg strategy, when both were made. *)
Lemma generate_kernel_two_legs g field ch dist self rq1 rq2 :
  out_trace (generate_kernel g field ch dist self) = [rq1; rq2] ->
  distance rq1 = zero_mode_distance self /\
  distance rq2 =
    (- (zero_mode_distance self + image_location_offset self - dist))%R /\
  wavelength rq1 = wavelength rq2 /\
  nu rq1 = nu rq2 /\ nv rq1 = nv rq2.
Proof.
  unfold generate_kernel. rewrite bind_get_self.
  destruct (propagator_type self =? "forward")%string.
  - destruct (index_list (wavelengths self) ch) as [w|];
      [rewrite bind_lift_ok | rewrite bind_lift_raise; discriminate].
    rewrite bind_call_get_propagation_kernel.
    match goal with |- context [g ?rq] => destruct (g rq) end; discriminate.
  - destruct (propagator_type self =? "back and forth")%string;
      [|discriminate].
    destruct (index_list (wavelengths self) ch) as [w|];
      [rewrite bind_lift_ok | rewrite bind_lift_raise; discriminate].
    rewrite bind_call_get_propagation_kernel.
    match goal with |- context [g ?rq] => destruct (g rq) as [Hf|] end;
      [|discriminate].
    cbn [out_trace].
    rewrite bind_lift_ok, bind_call_get_propagation_kernel.
    match goal with
    | |- context [match g ?rq with _ => _ end] => destruct (g rq) as [Hb|]
    end; cbn [out_trace].
    + destruct (tmul Hf Hb);
        [rewrite bind_lift_ok | rewrite bind_lift_raise];
        cbn [out_trace ret]; intros [= <- <-]; cbn; repeat split.
    + intros [= <- <-]; cbn; repeat split.
Qed.

Lemma call_trace_source g field ch dp self rq rqs :
  out_trace (__call__ g field ch dp self) = rq :: rqs ->
  exists dist,
    index_list (distances self) dp = Ok dist /\
    out_trace (generate_kernel g field ch dist self) = rq :: rqs.
Proof.
  rewrite call_unfold. cbv zeta.
  destruct (index_list (distances self) dp) as [dist|]; [|discriminate].
  intros E. exists dist. split; [reflexivity|]. revert E.
  repeat match goal with
         | |- context [match ?x with _ => _ end] => destruct x eqn:?
         end; cbn [out_trace]; try discriminate; trivial.
Qed.

Lemma call_two_legs g field ch dp self rq1 rq2 :
  out_trace (__call__ g field ch dp self) = [rq1; rq2] ->
  distance rq1 = zero_mode_distance self /\
  wavelength rq1 = wavelength rq2 /\
  nu rq1 = nu rq2 /\ nv rq1 = nv rq2 /\
  exists d, d < List.length (distances self) /\
    (distance rq1 + distance rq2
     = nth d (distances self) 0 - image_location_offset self)%R.
Proof.
  intros Etrace.
  destruct (call_trace_source _ _ _ _ _ _ _ Etrace) as (dist & Edist & Eg).
  destruct (generate_kernel_two_legs _ _ _ _ _ _ _ Eg)
    as (E1 & E2 & Ew & Enu & Env).
  destruct (index_list_value _ _ _ Edist) as (d & Hd & ->).
  repeat split; trivial.
  exists d. split; [assumption|]. rewrite E1, E2. lra.
Qed.

Lemma perform_all_offsets g os self :
  zero_mode_distance (perform_all g self os) = zero_mode_distance self /\
  image_location_offset (perform_all g self os) = image_location_offset self.
Proof.
  destruct (perform_all_writes g os self) as (A & K & G & P & ->).
  split; reflexivity.
Qed.

Lemma init_offsets res wl pp f nf n vd off pt prt bfd lcp ap :
  zero_mode_distance (__init__ res wl pp f nf n vd off pt prt bfd lcp ap)
    = bfd /\
  image_location_offset (__init__ res wl pp f nf n vd off pt prt bfd lcp ap)
    = off.
Proof. destruct ap, lcp; split; reflexivity. Qed.

(** ** The layout of the depth schedule *)

Section DepthLayout.

Variables (resolution : nat * nat) (wavelengths : list R) (pixel_pitch : R)
  (resolution_factor number_of_frames number_of_depth_layers : nat)
  (volume_depth image_location_offset : R)
  (propagation_type propagator_type : string) (back_and_forth_distance : R)
  (laser_channel_power : option (tensor R)) (aperture : option (tensor C)).

Notation "'constructed'" :=
  (__init__ resolution wavelengths pixel_pitch resolution_factor
     number_of_frames number_of_depth_layers volume_depth
     image_location_offset propagation_type propagator_type
     back_and_forth_distance laser_channel_power aperture)
  (only parsing).

Lemma init_distances_bounds (i : nat) :
  (0 <= volume_depth)%R -> i < number_of_depth_layers ->
  (image_location_offset - volume_depth / 2
   <= nth i (distances constructed) 0
   <= image_location_offset + volume_depth / 2)%R.
Proof.
  intros Hv Hi. rewrite init_distances_nth by assumption.
  destruct (Nat.eq_dec number_of_depth_layers 1) as [E1|E1].
  - replace i with 0 by lia. simpl INR. lra.
  - assert (Hpos : (0 < INR (number_of_depth_layers - 1))%R)
      by (apply lt_0_INR; lia).
    assert (Hle : (INR i <= INR (number_of_depth_layers - 1))%R)
      by (apply le_INR; lia).
    assert (H0 : (0 <= INR i)%R) by apply pos_INR.
    assert (Hq : (0 <= volume_depth / INR (number_of_depth_layers - 1))%R).
    { apply Rmult_le_pos; [assumption|]. left. now apply Rinv_0_lt_compat. }
    assert (Heq : (INR (number_of_depth_layers - 1)
                   * (volume_depth / INR (number_of_depth_layers - 1))
                   = volume_depth)%R) by (field; lra).
    nra.
Qed.

(** X8.  With a single depth layer, the default, the schedule is and
    stays the one distance [image_location_offset - volume_depth / 2], the
    near end of the volume and not its centre.  With two layers or more, neighbouring
    distances differ by [volume_depth / (n - 1)] and the schedule is
    symmetric about [image_location_offset].  For a non-negative
    [volume_depth] every distance lies within half the volume depth of
    [image_location_offset]. *)
Theorem depth_schedule_layout :
  (number_of_depth_layers = 1 ->
   forall g os,
     distances (perform_all g constructed os) =
     [(image_location_offset - volume_depth / 2)%R]) /\
  (forall i, S i < number_of_depth_layers ->
     (nth (S i) (distances constructed) 0 - nth i (distances constructed) 0
      = volume_depth / INR (number_of_depth_layers - 1))%R) /\
  (2 <= number_of_depth_layers ->
   forall i, i < number_of_depth_layers ->
     (nth i (distances constructed) 0
      + nth (number_of_depth_layers - 1 - i) (distances constructed) 0
      = 2 * image_location_offset)%R) /\
  ((0 <= volume_depth)%R ->
   forall i, i < number_of_depth_layers ->
     (image_location_offset - volume_depth / 2
      <= nth i (distances constructed) 0
      <= image_location_offset + volume_depth / 2)%R).
Proof.
  split; [|split; [|split]].
  - intros E1 g os. rewrite perform_all_distances, init_distances_value, E1.
    cbn [linspace seq map]. f_equal. simpl INR. lra.
  - intros i Hi. rewrite !init_distances_nth by lia.
    rewrite S_INR. lra.
  - intros Hn i Hi. rewrite !init_distances_nth by lia.
    assert (Hne : INR (number_of_depth_layers - 1) <> 0%R)
      by (apply not_0_INR; lia).
    rewrite (minus_INR (number_of_depth_layers - 1) i) by lia.
    field. assumption.
  - intros Hv i Hi. now apply init_distances_bounds.
Qed.

(** X9.  The two legs of the [back and forth] strategy together cover the
    position of the layer inside the volume: whenever a forward call of a
    constructed instance, after any operations, makes its two requests,
    the first is for the distance [back_and_forth_distance], both are for
    the same wavelength and shape, and their distances add up to
    [distances[d] - image_location_offset] for a layer [d], which for a
    non-negative [volume_depth] lies between [-volume_depth / 2] and
    [volume_depth / 2]. *)
Theorem back_and_forth_net_distance
  (g : kernel_request -> option (tensor C)) (os : list operation)
  (field : tensor C) (channel_id depth_id : Z) (rq1 rq2 : kernel_request) :
  out_trace (__call__ g field channel_id depth_id
               (perform_all g constructed os)) = [rq1; rq2] ->
  distance rq1 = back_and_forth_distance /\
  wavelength rq1 = wavelength rq2 /\
  nu rq1 = nu rq2 /\ nv rq1 = nv rq2 /\
  (exists d, d < number_of_depth_layers /\
     (distance rq1 + distance rq2
      = nth d (distances constructed) 0 - image_location_offset)%R) /\
  ((0 <= volume_depth)%R ->
   (- volume_depth / 2 <= distance rq1 + distance rq2 <= volume_depth / 2)%R).
Proof.
  intros Etrace.
  destruct (call_two_legs _ _ _ _ _ _ _ Etrace)
    as (E1 & Ew & Enu & Env & d & Hd & Esum).
  destruct (perform_all_offsets g os constructed) as [Ez Eo].
  destruct (init_offsets resolution wavelengths pixel_pitch resolution_factor
              number_of_frames number_of_depth_layers volume_depth
              image_location_offset propagation_type propagator_type
              back_and_forth_distance laser_channel_power aperture)
    as [Ez' Eo'].
  rewrite Ez, Ez' in E1. rewrite Eo, Eo' in Esum.
  rewrite perform_all_distances in Hd, Esum.
  assert (Hlen : List.length (distances constructed) = number_of_depth_layers)
    by (rewrite init_distances_value, length_map; apply linspace_length).
  rewrite Hlen in Hd.
  repeat split; trivial.
  - exists d. split; assumption.
  - rewrite Esum.
    pose proof (init_distances_bounds d H Hd). lra.
  - rewrite Esum.
    pose proof (init_distances_bounds d H Hd). lra.
Qed.

End DepthLayout.

(** The default single layer sits at the near end of the volume. *)
Lemma depth_schedule_layout_witness :
  distances forward_instance = [(5e-3 - 1e-2 / 2)%R] /\
  (5e-3 - 1e-2 / 2 <= nth 0 (distances three_layers) 0 <= 5e-3 + 1e-2 / 2)%R.
Proof.
  split.
  - apply (proj1 (depth_schedule_layout (2, 2) [515e-9%R] 8e-6%R 1 1 1
                    1e-2%R 5e-3%R "Bandlimited Angular Spectrum" "forward"
                    0.3%R None None) eq_refl blank_kernels []).
  - apply (depth_schedule_layout (2, 2) [515e-9%R] 8e-6%R 1 1 3 1e-2%R 5e-3%R
             "Bandlimited Angular Spectrum" "forward" 0.3%R None None);
      [lra | lia].
Defined.

(** The two requests of the first call of the two-leg instance. *)
Lemma back_and_forth_net_distance_witness :
  exists rq1 rq2,
    out_trace (__call__ blank_kernels (zeros 2 2) 0 0
                 (perform_all blank_kernels back_and_forth_instance []))
    = [rq1; rq2] /\
    distance rq1 = 0.3%R /\
    (- (1e-2) / 2 <= distance rq1 + distance rq2 <= 1e-2 / 2)%R.
Proof.
  exists (mkRequest 4 4 8e-6%R 515e-9%R 0.3%R
            "Bandlimited Angular Spectrum" 1).
  exists (mkRequest 4 4 8e-6%R 515e-9%R
            (- (0.3 + 5e-3 - nth 0 (distances back_and_forth_instance) 0))%R
            "Bandlimited Angular Spectrum" 1).
  split; [reflexivity|].
  destruct (back_and_forth_net_distance (2, 2) [515e-9%R] 8e-6%R 1 1 1
              1e-2%R 5e-3%R "Bandlimited Angular Spectrum" "back and forth"
              0.3%R None None blank_kernels [] (zeros 2 2) 0 0
              (mkRequest 4 4 8e-6%R 515e-9%R 0.3%R
                 "Bandlimited Angular Spectrum" 1)
              (mkRequest 4 4 8e-6%R 515e-9%R
                 (- (0.3 + 5e-3
                     - nth 0 (distances back_and_forth_instance) 0))%R
                 "Bandlimited Angular Spectrum" 1)
              eq_refl)
    as (E1 & _ & _ & _ & _ & Hb).
  split; [exact E1 | apply Hb; lra].
Defined.

(** ** Superposition *)

Lemma Cadd_0_l (a : C) : Cadd C0 a = a.
Proof. csolve. Qed.

Lemma Cadd_swap (a b c d : C) :
  Cadd (Cadd a b) (Cadd c d) = Cadd (Cadd a c) (Cadd b d).
Proof. csolve. Qed.

Lemma Cmul_add_distr_r (a b c : C) :
  Cmul (Cadd a b) c = Cadd (Cmul a c) (Cmul b c).
Proof. csolve. Qed.

Lemma Csum_add (n : nat) (f1 f2 h : nat -> C) :
  (forall k, k < n -> h k = Cadd (f1 k) (f2 k)) ->
  Csum n h = Cadd (Csum n f1) (Csum n f2).
Proof.
  induction n as [|n IH]; intros Hh; simpl.
  - now rewrite Cadd_0_l.
  - rewrite IH, Hh by auto with arith. apply Cadd_swap.
Qed.

Lemma zero_pad_sum (x1 x2 y : tensor C) :
  sum_of x1 x2 y -> sum_of (zero_pad x1) (zero_pad x2) (zero_pad y).
Proof.
  intros (Hr2 & Hc2 & Hr & Hc & He). unfold sum_of, zero_pad; simpl.
  rewrite Hr2, Hc2, Hr, Hc. repeat split; trivial.
  intros i j Hi Hj.
  destruct (_ && _) eqn:E.
  - apply He.
    + apply andb_true_iff in E as [E _]. apply andb_true_iff in E as [E _].
      apply andb_true_iff in E as [E1 E2].
      apply Nat.leb_le in E1. apply Nat.ltb_lt in E2. lia.
    + apply andb_true_iff in E as [E E2]. apply andb_true_iff in E as [_ E1].
      apply Nat.leb_le in E1. apply Nat.ltb_lt in E2. lia.
  - now rewrite Cadd_0_l.
Qed.

Lemma fftshift_sum (x1 x2 y : tensor C) :
  sum_of x1 x2 y -> sum_of (fftshift x1) (fftshift x2) (fftshift y).
Proof.
  intros (Hr2 & Hc2 & Hr & Hc & He). unfold sum_of, fftshift; simpl.
  rewrite Hr2, Hc2, Hr, Hc. repeat split; trivial.
  intros i j Hi Hj. apply He; apply Nat.mod_upper_bound; lia.
Qed.

Lemma ifftshift_sum (x1 x2 y : tensor C) :
  sum_of x1 x2 y -> sum_of (ifftshift x1) (ifftshift x2) (ifftshift y).
Proof.
  intros (Hr2 & Hc2 & Hr & Hc & He). unfold sum_of, ifftshift; simpl.
  rewrite Hr2, Hc2, Hr, Hc. repeat split; trivial.
  intros i j Hi Hj. apply He; apply Nat.mod_upper_bound; lia.
Qed.

Lemma fft2_sum (x1 x2 y : tensor C) :
  sum_of x1 x2 y -> sum_of (fft2 x1) (fft2 x2) (fft2 y).
Proof.
  intros (Hr2 & Hc2 & Hr & Hc & He). unfold sum_of, fft2; simpl.
  rewrite Hr2, Hc2, Hr, Hc. repeat split; trivial.
  intros k l _ _.
  apply Csum_add; intros m Hm.
  apply Csum_add; intros n Hn.
  rewrite He by assumption. apply Cmul_add_distr_r.
Qed.

Lemma ifft2_sum (x1 x2 y : tensor C) :
  sum_of x1 x2 y -> sum_of (ifft2 x1) (ifft2 x2) (ifft2 y).
Proof.
  intros (Hr2 & Hc2 & Hr & Hc & He). unfold sum_of, ifft2; simpl.
  rewrite Hr2, Hc2, Hr, Hc. repeat split; trivial.
  intros m n _ _.
  rewrite <- Cmul_add_distr_l. f_equal.
  apply Csum_add; intros k Hk.
  apply Csum_add; intros l Hl.
  rewrite He by assumption. apply Cmul_add_distr_r.
Qed.

Lemma crop_center_sum (x1 x2 y : tensor C) :
  sum_of x1 x2 y -> sum_of (crop_center x1) (crop_center x2) (crop_center y).
Proof.
  intros (Hr2 & Hc2 & Hr & Hc & He). unfold sum_of, crop_center.
  cbn [rows cols elem]. rewrite Hr2, Hc2, Hr, Hc. repeat split; trivial.
  intros i j Hi Hj. apply He; now apply crop_center_index.
Qed.

Lemma tmul_sum (K x1 x2 y u1 u2 : tensor C) :
  sum_of x1 x2 y ->
  tmul K x1 = Ok u1 -> tmul K x2 = Ok u2 ->
  exists v, tmul K y = Ok v /\ sum_of u1 u2 v.
Proof.
  intros (Hr2 & Hc2 & Hr & Hc & He). unfold tmul. rewrite Hr2, Hc2, Hr, Hc.
  destruct (broadcast_dim (rows K) (rows x1)) as [r|] eqn:Er; [|discriminate].
  destruct (broadcast_dim (cols K) (cols x1)) as [c|] eqn:Ec; [|discriminate].
  intros [= <-] [= <-]. eexists; split; [reflexivity|].
  unfold sum_of; cbn [rows cols elem]. repeat split; trivial.
  intros i j Hi Hj. rewrite He.
  - apply Cmul_add_distr_l.
  - eapply bidx_right_in_range; eassumption.
  - eapply bidx_right_in_range; eassumption.
Qed.

Lemma tadd_same_shape (s t : tensor C) :
  shape s = shape t ->
  exists u, tadd s t = Ok u /\ sum_of s t u.
Proof.
  intros Hs. apply shape_eq in Hs as [Hr Hc].
  unfold tadd. rewrite Hr, Hc, !broadcast_dim_refl.
  eexists; split; [reflexivity|].
  unfold sum_of; cbn [rows cols elem]. repeat split; try congruence.
  intros i j Hi Hj. rewrite !bidx_in_range by congruence. reflexivity.
Qed.

Lemma sum_of_unique (x1 x2 y z : tensor C) :
  sum_of x1 x2 y -> sum_of x1 x2 z -> tensor_eq y z.
Proof.
  intros (_ & _ & Hr & Hc & He) (_ & _ & Hr' & Hc' & He').
  unfold tensor_eq. repeat split; try congruence.
  intros i j Hi Hj. rewrite He, He' by congruence. reflexivity.
Qed.

(** X10.  Superposition: for a fixed kernel and aperture the propagated
    sum of two fields of one shape is the sum of the two propagated
    fields. *)
Theorem propagate_additive (self : propagator) (H field1 field2 r1 r2 : tensor C) :
  shape field1 = shape field2 ->
  propagate self field1 H = Ok r1 ->
  propagate self field2 H = Ok r2 ->
  exists field r r12,
    tadd field1 field2 = Ok field /\
    propagate self field H = Ok r /\
    tadd r1 r2 = Ok r12 /\
    tensor_eq r r12.
Proof.
  intros Hs E1 E2.
  destruct (tadd_same_shape field1 field2 Hs) as (field & Ef & Hsum).
  assert (HU : sum_of (propagate_U1 field1) (propagate_U1 field2)
                 (propagate_U1 field)).
  { unfold propagate_U1, propagate_field_padded.
    now apply fftshift_sum, fft2_sum, fftshift_sum, zero_pad_sum. }
  revert E1 E2. unfold propagate, propagate_U2.
  destruct (tmul H (aperture self)) as [HA|]; [|discriminate].
  destruct (tmul HA (propagate_U1 field1)) as [U21|] eqn:Em1; [|discriminate].
  destruct (tmul HA (propagate_U1 field2)) as [U22|] eqn:Em2; [|discriminate].
  intros [= <-] [= <-].
  destruct (tmul_sum HA _ _ _ _ _ HU Em1 Em2) as (U2 & Em & HU2).
  assert (Hres : sum_of (crop_center (propagate_result_padded U21))
                   (crop_center (propagate_result_padded U22))
                   (crop_center (propagate_result_padded U2))).
  { unfold propagate_result_padded.
    now apply crop_center_sum, ifftshift_sum, ifft2_sum, ifftshift_sum. }
  destruct (tadd_same_shape (crop_center (propagate_result_padded U21))
              (crop_center (propagate_result_padded U22)))
    as (r12 & E12 & H12).
  { destruct Hres as (Hr2 & Hc2 & _). apply shape_eq. now split. }
  exists field, (crop_center (propagate_result_padded U2)), r12.
  split; [exact Ef|]. split; [now rewrite Em|]. split; [exact E12|].
  apply (sum_of_unique _ _ _ _ Hres H12).
Qed.

(** Two fields of the scaled resolution. *)
Lemma propagate_additive_witness :
  exists field r,
    tadd (zeros 4 4) (tscale (RtoC 2) (zeros 4 4)) = Ok field /\
    propagate scaled_instance field scaled_slot = Ok r.
Proof.
  destruct (propagate_returns scaled_instance (zeros 4 4) scaled_slot
              eq_refl eq_refl) as (r1 & E1 & _).
  destruct (propagate_returns scaled_instance (tscale (RtoC 2) (zeros 4 4))
              scaled_slot eq_refl eq_refl) as (r2 & E2 & _).
  destruct (propagate_additive scaled_instance scaled_slot (zeros 4 4)
              (tscale (RtoC 2) (zeros 4 4)) r1 r2 eq_refl E1 E2)
    as (field & r & r12 & Ef & Er & _).
  exists field, r. split; assumption.
Defined.

(** ** The kernel and the aperture enter linearly *)

Lemma scaled_by_zero (x : tensor C) :
  scaled_by C0 x x ->
  forall i j, i < rows x -> j < cols x -> elem x i j = C0.
Proof.
  intros (_ & _ & He) i j Hi Hj. rewrite He by assumption. apply Cmul_0_l.
Qed.

Lemma tmul_zero_right (K A u : tensor C) :
  (forall i j, i < rows A -> j < cols A -> elem A i j = C0) ->
  tmul K A = Ok u -> scaled_by C0 u u.
Proof.
  intros Hz. unfold tmul.
  destruct (broadcast_dim (rows K) (rows A)) as [r|] eqn:Er; [|discriminate].
  destruct (broadcast_dim (cols K) (cols A)) as [c|] eqn:Ec; [|discriminate].
  intros [= <-]. unfold scaled_by; cbn [rows cols elem]. repeat split.
  intros i j Hi Hj. rewrite Hz.
  - now rewrite Cmul_0_r, Cmul_0_l.
  - eapply bidx_right_in_range; eassumption.
  - eapply bidx_right_in_range; eassumption.
Qed.

(** X11.  [propagate] is linear in the kernel as it is in the field: a
    kernel multiplied by a complex scalar gives the result multiplied by
    it, and raises where the kernel raised.  A kernel that is zero
    everywhere gives a field that is zero everywhere, and so does an
    aperture that is zero everywhere, whatever the kernel. *)
Theorem propagate_kernel_linear (self : propagator) (field H : tensor C)
  (b : C) :
  (forall r, propagate self field H = Ok r ->
     exists r', propagate self field (tscale b H) = Ok r' /\
                tensor_eq r' (tscale b r)) /\
  (forall e, propagate self field H = Raise e ->
     propagate self field (tscale b H) = Raise e) /\
  (forall r,
     (forall i j, i < rows H -> j < cols H -> elem H i j = C0) ->
     propagate self field H = Ok r ->
     forall i j, i < rows r -> j < cols r -> elem r i j = C0) /\
  (forall r,
     (forall i j, i < rows (aperture self) -> j < cols (aperture self) ->
        elem (aperture self) i j = C0) ->
     propagate self field H = Ok r ->
     forall i j, i < rows r -> j < cols r -> elem r i j = C0).
Proof.
  destruct (propagate_kernel_scaled self b field H (tscale b H)
              (tscale_scaled b H)) as [Hok Hraise].
  split; [|split; [exact Hraise|split]].
  - intros r E. destruct (Hok r E) as (r' & E' & Hr & Hc & He).
    exists r'. split; [exact E'|].
    unfold tensor_eq, tscale; cbn [rows cols elem]. repeat split; trivial.
    intros i j Hi Hj. apply He; congruence.
  - intros r Hz E.
    assert (Hs : scaled_by C0 H H).
    { unfold scaled_by. repeat split; trivial.
      intros i j Hi Hj. now rewrite Cmul_0_l, Hz. }
    destruct (propagate_kernel_scaled self C0 field H H Hs) as [Hok0 _].
    destruct (Hok0 r E) as (r' & E' & Hr').
    rewrite E in E'. injection E' as <-.
    now apply scaled_by_zero.
  - intros r Hz. unfold propagate, propagate_U2.
    destruct (tmul H (aperture self)) as [HA|] eqn:EA; [|discriminate].
    pose proof (tmul_zero_right _ _ _ Hz EA) as HsA.
    destruct (tmul_left_scaled C0 HA HA (propagate_U1 field) HsA) as [Hok0 _].
    destruct (tmul HA (propagate_U1 field)) as [U2|]; [|discriminate].
    destruct (Hok0 U2 eq_refl) as (U2' & [= <-] & HU).
    intros [= <-]. apply scaled_by_zero.
    now apply crop_center_scaled, propagate_result_padded_scaled.
Qed.

(** A cache slot that was never filled is a zero kernel. *)
Lemma propagate_kernel_linear_witness :
  exists r, propagate scaled_instance (zeros 4 4) scaled_slot = Ok r /\
            elem r 1 2 = C0.
Proof.
  destruct (propagate_returns scaled_instance (zeros 4 4) scaled_slot
              eq_refl eq_refl) as (r & E & Hs).
  exists r. split; [exact E|].
  destruct (propagate_kernel_linear scaled_instance (zeros 4 4) scaled_slot C1)
    as (_ & _ & Hzero & _).
  apply shape_eq in Hs as [Hr Hc].
  apply (Hzero r); [intros i j _ _; reflexivity | exact E | |].
  - rewrite Hr. cbv. lia.
  - rewrite Hc. cbv. lia.
Defined.

(** ** Channel powers *)

Lemma perform_keeps_laser_powers g self o :
  keeps_laser_powers o = true ->
  channel_power (perform g self o) = channel_power self.
Proof.
  destruct o as [field ch dp| | a size | | p |]; cbn [perform];
    try reflexivity; try discriminate.
  - intros _.
    now destruct (call_writes g field ch dp self) as (K & G & ->).
  - intros _. now destruct a.
Qed.

(** X12.  The channel powers are only written by [set_laser_powers]:
    through any sequence of the other operations, forward calls and new
    apertures included, [get_laser_powers] returns what it returned
    before, and after [set_laser_powers] it returns the powers that were
    set. *)
Theorem laser_powers_kept (g : kernel_request -> option (tensor C))
  (self : propagator) (laser_power : tensor R) (os : list operation) :
  forallb keeps_laser_powers os = true ->
  get_laser_powers (perform_all g self os) = get_laser_powers self /\
  get_laser_powers (perform_all g (set_laser_powers self laser_power) os)
    = laser_power.
Proof.
  intros Hos.
  assert (Hkeep : forall s,
            get_laser_powers (perform_all g s os) = get_laser_powers s).
  { revert Hos. induction os as [|o os IH]; intros Hos s; [reflexivity|].
    cbn [forallb] in Hos. apply andb_true_iff in Hos as [Ho Hos].
    cbn [perform_all fold_left]. fold (perform_all g (perform g s o) os).
    rewrite (IH Hos). unfold get_laser_powers.
    now apply perform_keeps_laser_powers. }
  split; [apply Hkeep|]. now rewrite Hkeep.
Qed.

(** Powers set before a forward call and a new aperture. *)
Lemma laser_powers_kept_witness :
  get_laser_powers
    (perform_all blank_kernels (set_laser_powers forward_instance (eye 3 3))
       [OpCall (zeros 2 2) 0 0; OpSetAperture None None; OpGetKernels])
  = eye 3 3.
Proof.
  apply (laser_powers_kept blank_kernels forward_instance (eye 3 3)).
  reflexivity.
Defined.

(** ** What the constructor sets up *)

Lemma perform_all_counts g os self :
  number_of_depth_layers (perform_all g self os) = number_of_depth_layers self /\
  number_of_channels (perform_all g self os) = number_of_channels self.
Proof.
  destruct (perform_all_writes g os self) as (A & K & G & P & ->).
  split; reflexivity.
Qed.

Lemma init_counts res wl pp f nf n vd off pt prt bfd lcp ap :
  number_of_depth_layers (__init__ res wl pp f nf n vd off pt prt bfd lcp ap)
    = n /\
  number_of_channels (__init__ res wl pp f nf n vd off pt prt bfd lcp ap)
    = List.length wl.
Proof. destruct ap, lcp; split; reflexivity. Qed.

Lemma wf_shapes self :
  wf self ->
  shape (generated_kernels self) =
    (number_of_depth_layers self, number_of_channels self) /\
  shape (kernels self) =
    (number_of_depth_layers self, number_of_channels self) /\
  List.length (distances self) = number_of_depth_layers self.
Proof.
  intros []. repeat split; trivial; apply shape_eq; now split.
Qed.

Lemma reachable_shapes g os res wl pp f nf n vd off pt prt bfd lcp ap :
  shape (generated_kernels
           (perform_all g (__init__ res wl pp f nf n vd off pt prt bfd lcp ap)
              os)) = (n, List.length wl) /\
  shape (kernels
           (perform_all g (__init__ res wl pp f nf n vd off pt prt bfd lcp ap)
              os)) = (n, List.length wl) /\
  List.length
    (distances
       (perform_all g (__init__ res wl pp f nf n vd off pt prt bfd lcp ap)
          os)) = n.
Proof.
  pose proof (wf_shapes _ (wf_perform_all g os _
                (wf_init res wl pp f nf n vd off pt prt bfd lcp ap))) as Hs.
  destruct (perform_all_counts g os
              (__init__ res wl pp f nf n vd off pt prt bfd lcp ap))
    as [Ed Ec].
  destruct (init_counts res wl pp f nf n vd off pt prt bfd lcp ap)
    as [Ed' Ec'].
  now rewrite Ed, Ec, Ed', Ec' in Hs.
Qed.

Section Constructor.

Variables (resolution : nat * nat) (wavelengths : list R) (pixel_pitch : R)
  (resolution_factor number_of_frames number_of_depth_layers : nat)
  (volume_depth image_location_offset : R)
  (propagation_type propagator_type : string) (back_and_forth_distance : R)
  (laser_channel_power : option (tensor R)) (aperture : option (tensor C)).

Notation "'constructed'" :=
  (__init__ resolution wavelengths pixel_pitch resolution_factor
     number_of_frames number_of_depth_layers volume_depth
     image_location_offset propagation_type propagator_type
     back_and_forth_distance laser_channel_power aperture)
  (only parsing).

(** X13.  A constructed instance starts with an empty cache, every flag
    false and every slot a zero buffer of the padded shape, with one
    channel per wavelength and with the supplied channel powers or, when
    none are supplied, the identity-like matrix of frames by channels; and
    whatever operations follow, the instance stays well formed: the depth
    schedule, the flags and the cache keep their shapes. *)
Theorem constructed_instance :
  (forall d c, elem (generated_kernels constructed) d c = false) /\
  (forall d c,
     elem (kernels constructed) d c =
     zeros (fst resolution * resolution_factor * 2)
           (snd resolution * resolution_factor * 2)) /\
  number_of_channels constructed = List.length wavelengths /\
  channel_power constructed =
    match laser_channel_power with
    | Some p => p
    | None => eye number_of_frames (List.length wavelengths)
    end /\
  (forall g os, wf (perform_all g constructed os)) /\
  (forall g os,
     shape (generated_kernels (perform_all g constructed os)) =
       (number_of_depth_layers, List.length wavelengths) /\
     shape (kernels (perform_all g constructed os)) =
       (number_of_depth_layers, List.length wavelengths) /\
     List.length (distances (perform_all g constructed os)) =
       number_of_depth_layers).
Proof.
  split; [|split; [|split; [|split; [|split]]]];
    try (destruct aperture, laser_channel_power; reflexivity).
  - intros g os. apply wf_perform_all, wf_init.
  - intros g os. apply reachable_shapes.
Qed.

End Constructor.

(* ================================================================== *)
(** * Properties of the detector *)

Module DetectorFacts.

Import Detector.

(** ** The weight of a ray *)

Lemma hit_bounds (d : R) : (0 <= hit d <= 1)%R.
Proof.
  unfold hit.
  pose proof (exp_pos (- 50 * d + 5)) as He.
  assert (Hinv : (0 < 1 / (1 + exp (- 50 * d + 5)) < 1)%R).
  { split.
    - apply Rdiv_lt_0_compat; lra.
    - apply (Rmult_lt_reg_r (1 + exp (- 50 * d + 5))); [lra|].
      unfold Rdiv. rewrite Rmult_assoc, Rinv_l by lra. lra. }
  rewrite Rabs_pos_eq by lra. lra.
Qed.

Lemma Rsum_hit_bounds (q : point) (points : list point) :
  (0 <= Rsum (map (fun p => hit (distance_to p q)) points)
   <= INR (List.length points))%R.
Proof.
  induction points as [|p points [IH0 IH1]].
  - cbn. lra.
  - cbn [map Rsum List.length]. rewrite S_INR.
    pose proof (hit_bounds (distance_to p q)). lra.
Qed.

Lemma hits_length (points locations : list point) :
  List.length (hits points locations) = List.length locations.
Proof. unfold hits. apply length_map. Qed.

Lemma hits_nth (points locations : list point) (n : nat) :
  n < List.length locations ->
  nth n (hits points locations) 0%R =
  Rsum (map (fun p => hit (distance_to p (nth n locations (0, 0, 0)%R)))
          points).
Proof.
  intros Hn. unfold hits.
  set (f := fun q => Rsum (map (fun p => hit (distance_to p q)) points)).
  rewrite (nth_indep _ 0%R (f (0, 0, 0)%R)) by now rewrite length_map.
  apply (map_nth f).
Qed.

Lemma flat_index_in_range (h w i j : nat) :
  i < h -> j < w -> i * w + j < h * w.
Proof. intros Hi Hj. nia. Qed.

Section Class.

Variables Plane Rays : Type.
Variable intersect_w_surface : Rays -> Plane -> list (point * point).

(** X14.  [intersect] accumulates: when the colour is a channel of the
    image and there is one pixel location per pixel, it returns the image
    it has stored and the points of intersection; only the addressed
    channel changes, the shape of the image does not, and the pixel
    (i, j) of that channel grows by the sum, over the points of
    intersection, of the weight [hit] of the distance between the point
    and the pixel location [i * width + j]; that increment is at least
    zero and at most the number of rays. *)
Theorem intersect_accumulates (self : detector Plane) (rays : Rays)
  (color : Z) (c : nat) :
  py_index (channels (image self)) color = Some c ->
  List.length (pixel_locations self) =
    height (image self) * width (image self) ->
  exists img,
    intersect intersect_w_surface self rays color =
      (with_image self img,
       Ok (img, map fst (intersect_w_surface rays (plane self)))) /\
    channels img = channels (image self) /\
    height img = height (image self) /\
    width img = width (image self) /\
    (forall k i j, k <> c -> pixel img k i j = pixel (image self) k i j) /\
    (forall i j, i < height (image self) -> j < width (image self) ->
       pixel img c i j =
       (pixel (image self) c i j +
        Rsum (map (fun p =>
                     hit (distance_to p
                            (nth (i * width (image self) + j)
                               (pixel_locations self) (0, 0, 0)%R)))
                (map fst (intersect_w_surface rays (plane self)))))%R) /\
    (forall i j, i < height (image self) -> j < width (image self) ->
       (pixel (image self) c i j <= pixel img c i j
        <= pixel (image self) c i j
           + INR (List.length (intersect_w_surface rays (plane self))))%R).
Proof.
  intros Ec Hlen. unfold intersect. rewrite Ec, hits_length, Hlen.
  rewrite Nat.eqb_refl.
  eexists. split; [reflexivity|].
  cbn [add_to_channel channels height width pixel].
  repeat split.
  - intros k i j Hk. apply Nat.eqb_neq in Hk. now rewrite Hk.
  - intros i j Hi Hj.
    now rewrite Nat.eqb_refl, hits_nth
      by (rewrite Hlen; now apply flat_index_in_range).
  - rewrite Nat.eqb_refl, hits_nth
      by (rewrite Hlen; now apply flat_index_in_range).
    pose proof (Rsum_hit_bounds
                  (nth (i * width (image self) + j)
                     (pixel_locations self) (0, 0, 0)%R)
                  (map fst (intersect_w_surface rays (plane self)))).
    lra.
  - rewrite Nat.eqb_refl, hits_nth
      by (rewrite Hlen; now apply flat_index_in_range).
    pose proof (Rsum_hit_bounds
                  (nth (i * width (image self) + j)
                     (pixel_locations self) (0, 0, 0)%R)
                  (map fst (intersect_w_surface rays (plane self))))
      as Hb.
    rewrite length_map in Hb. lra.
Qed.

(** X15.  [intersect] raises [IndexError] when the colour is outside
    [-channels, channels), and [RuntimeError] when the colour is a channel
    but the number of pixel locations is not the number of pixels of the
    image; in both cases the detector is left as it was. *)
Theorem intersect_raises (self : detector Plane) (rays : Rays) (color : Z) :
  (~ (- Z.of_nat (channels (image self)) <= color
      < Z.of_nat (channels (image self)))%Z ->
   intersect intersect_w_surface self rays color = (self, Raise IndexError)) /\
  ((- Z.of_nat (channels (image self)) <= color
    < Z.of_nat (channels (image self)))%Z ->
   List.length (pixel_locations self) <>
     height (image self) * width (image self) ->
   intersect intersect_w_surface self rays color = (self, Raise RuntimeError)).
Proof.
  split.
  - intros Hout. unfold intersect. now rewrite py_index_out_of_range.
  - intros Hin Hne. unfold intersect.
    destruct (py_index_in_range _ _ Hin) as (c & ->).
    rewrite hits_length. apply Nat.eqb_neq in Hne. now rewrite Hne.
Qed.





End Class.

(** One ray on the two-pixel detector, at the first pixel location: the
    second pixel of the first channel grows by the weight of the distance
    between the two locations. *)
Lemma intersect_accumulates_witness :
  exists img,
    intersect reached two_pixels [(0, 0, 0)%R] 0 =
      (with_image two_pixels img, Ok (img, [(0, 0, 0)%R])) /\
    pixel img 0 0 1 =
      (pixel (image two_pixels) 0 0 1 +
       Rsum (map (fun p =>
                    hit (distance_to p
                           (nth (0 * width (image two_pixels) + 1)
                              (pixel_locations two_pixels) (0, 0, 0)%R)))
               (map fst (reached [(0, 0, 0)%R] (plane two_pixels)))))%R.
Proof.
  destruct (intersect_accumulates unit (list point) reached two_pixels
              [(0, 0, 0)%R] 0 0 eq_refl eq_refl)
    as (img & E & _ & _ & _ & _ & Hinc & _).
  exists img. split; [exact E|].
  apply Hinc; cbv; lia.
Defined.

(** A fourth colour of three, and a detector whose grid has one location
    too few. *)
Lemma intersect_raises_witness :
  intersect reached two_pixels [(0, 0, 0)%R] 3 = (two_pixels, Raise IndexError).
Proof.
  apply (intersect_raises unit (list point) reached two_pixels [(0, 0, 0)%R] 3).
  cbv. intros [_ H]. discriminate.
Defined.


End DetectorFacts.
